(** * Kaleidoscope front end: lexer and parser of hajifkd/llvm-tutorial

    A shallow embedding of the lexer ([getBufChar], [gettok]) and of the
    recursive-descent / operator-precedence parser of the repository, with
    the properties its specification states about them.

    The repository holds two programs that share the front end:
    [src/main.cpp] (lexer and parser only) and a second file with the same
    front end followed by code generation.  They differ in three places,
    which the record [source_file] names; every definition below that
    depends on one of them takes the source file as its first argument. *)

From Stdlib Require Import ZArith QArith String Ascii List Lia Bool.
From stdpp Require Import base option gmap.
Import ListNotations.

Local Open Scope string_scope.
Local Open Scope Z_scope.

#[local] Arguments String.append : simpl nomatch.

(** ** The two source files *)

Record source_file := SourceFile {
  (** [gettok] starts with [if (LastChar == '\n') { LastChar = ' '; return ';'; }] *)
  newline_is_semicolon : bool;
  (** the character [ParseIdentifierExpr] compares [CurTok] with after an
      argument: [if (CurTok != X) return LogError(...)] *)
  arg_separator : Z;
  (** the name [ParseTopLevelExpr] gives the prototype of a top-level
      expression *)
  anon_name : string
}.

(** [src/main.cpp] *)
Definition main_cpp : source_file :=
  {| newline_is_semicolon := true;
     arg_separator := 46 (* '.' *);
     anon_name := "" |}.

(** the second source file (front end plus code generation) *)
Definition jit_cpp : source_file :=
  {| newline_is_semicolon := false;
     arg_separator := 44 (* ',' *);
     anon_name := "__anon_expr" |}.

(** ** Characters

    A [char] is an [ascii], that is, its byte.  [char] is a signed type on
    the platforms the program is built for (x86-64), so the value of a
    [char] as an [int] lies in -128..127: the bytes from 128 up read as
    negative numbers, the byte 255 as [EOF] and the bytes 251..254 as the
    values of [enum Token].  The <cctype> functions are applied to these
    values as the program applies them; in the "C" locale none of the
    negative ones is a letter, a digit or white space. *)

Definition int_of_char (c : ascii) : Z :=
  let n := Z.of_N (N_of_ascii c) in
  if n <? 128 then n else n - 256.
Definition char_of_int (z : Z) : ascii := ascii_of_N (Z.to_N (z mod 256)).

Definition EOF : Z := -1.

(** [enum Token] *)
Definition tok_eof : Z := -1.
Definition tok_def : Z := -2.
Definition tok_extern : Z := -3.
Definition tok_identifier : Z := -4.
Definition tok_number : Z := -5.

(** <cctype> in the "C" locale *)
Definition isdigit (c : Z) : bool := (48 <=? c) && (c <=? 57).
Definition isalpha (c : Z) : bool :=
  ((65 <=? c) && (c <=? 90)) || ((97 <=? c) && (c <=? 122)).
Definition isalnum (c : Z) : bool := isalpha c || isdigit c.
Definition isspace (c : Z) : bool := (c =? 32) || ((9 <=? c) && (c <=? 13)).
Definition isascii (c : Z) : bool := (0 <=? c) && (c <=? 127).

(** ** [strtod] on the strings the lexer builds

    [gettok] only passes strings over [0-9.] to [strtod].  On those the
    conversion takes the longest prefix [digits [. digits]] holding at least
    one digit, and returns zero when there is none.  [NumVal] is kept as the
    exact decimal value of that prefix: the [double] of the program is that
    value rounded to the nearest [double] (infinity past the largest one),
    which is not modelled.  No property below depends on the value of a
    number other than the zero of a string without digits. *)

Fixpoint scan_digits (s : string) (acc : N) (cnt : nat) : N * nat * string :=
  match s with
  | String c r =>
      if isdigit (int_of_char c)
      then scan_digits r (10 * acc + (N_of_ascii c - 48))%N (S cnt)
      else (acc, cnt, s)
  | EmptyString => (acc, cnt, s)
  end.

Definition strtod (s : string) : Q :=
  let '(ip, ni, r1) := scan_digits s 0%N 0%nat in
  match r1 with
  | String "."%char r2 =>
      let '(m, nf, _) := scan_digits r2 ip 0%nat in
      if (ni + nf =? 0)%nat then 0%Q
      else Qred (Z.of_N m # Z.to_pos (10 ^ Z.of_nat nf))
  | _ => if (ni =? 0)%nat then 0%Q else (Z.of_N ip # 1)
  end.

(** ** Program state: the static variables of the program and [std::cin] *)

Record state := mkState {
  cin : string;               (** characters of standard input not yet read *)
  cin_good : bool;            (** [std::cin.good()] *)
  Buf : string;               (** [static std::string Buf] of [getBufChar] *)
  Index : nat;                (** [static unsigned int Index] of [getBufChar];
                                  kept without its wrap at 2^32, which takes
                                  a line of 2^32 characters to reach *)
  LastChar : Z;               (** [static int LastChar] of [gettok] *)
  IdentifierStr : string;
  NumVal : Q;
  CurTok : Z;
  BinopPrecedence : gmap Z Z; (** [std::map<char, int>], keyed by the char's value *)
  errs : list string          (** the messages [LogError] has written, oldest first *)
}.

Definition set_LastChar (v : Z) (st : state) : state :=
  mkState (cin st) (cin_good st) (Buf st) (Index st) v (IdentifierStr st)
          (NumVal st) (CurTok st) (BinopPrecedence st) (errs st).
Definition set_IdentifierStr (v : string) (st : state) : state :=
  mkState (cin st) (cin_good st) (Buf st) (Index st) (LastChar st) v
          (NumVal st) (CurTok st) (BinopPrecedence st) (errs st).
Definition set_NumVal (v : Q) (st : state) : state :=
  mkState (cin st) (cin_good st) (Buf st) (Index st) (LastChar st)
          (IdentifierStr st) v (CurTok st) (BinopPrecedence st) (errs st).
Definition set_CurTok (v : Z) (st : state) : state :=
  mkState (cin st) (cin_good st) (Buf st) (Index st) (LastChar st)
          (IdentifierStr st) (NumVal st) v (BinopPrecedence st) (errs st).
Definition set_BinopPrecedence (v : gmap Z Z) (st : state) : state :=
  mkState (cin st) (cin_good st) (Buf st) (Index st) (LastChar st)
          (IdentifierStr st) (NumVal st) (CurTok st) v (errs st).
Definition set_errs (v : list string) (st : state) : state :=
  mkState (cin st) (cin_good st) (Buf st) (Index st) (LastChar st)
          (IdentifierStr st) (NumVal st) (CurTok st) (BinopPrecedence st) v.
Definition set_Index (v : nat) (st : state) : state :=
  mkState (cin st) (cin_good st) (Buf st) v (LastChar st)
          (IdentifierStr st) (NumVal st) (CurTok st) (BinopPrecedence st) (errs st).
Definition set_Buf (v : string) (st : state) : state :=
  mkState (cin st) (cin_good st) v (Index st) (LastChar st)
          (IdentifierStr st) (NumVal st) (CurTok st) (BinopPrecedence st) (errs st).
Definition set_cin (v : string) (good : bool) (st : state) : state :=
  mkState v good (Buf st) (Index st) (LastChar st)
          (IdentifierStr st) (NumVal st) (CurTok st) (BinopPrecedence st) (errs st).

(** The state when [main] starts, with [input] on standard input. *)
Definition initial (input : string) : state :=
  {| cin := input; cin_good := true; Buf := ""; Index := 0%nat;
     LastChar := 32; IdentifierStr := ""; NumVal := 0%Q; CurTok := 0;
     BinopPrecedence := ∅; errs := [] |}.

(** ** The character source *)

(** The characters up to the first newline, and what follows that newline
    ([None] when the end of the stream comes first). *)
Fixpoint split_line (s : string) : string * option string :=
  match s with
  | EmptyString => (EmptyString, None)
  | String c r =>
      if Ascii.eqb c "010"%char then (EmptyString, Some r)
      else let '(l, rest) := split_line r in (String c l, rest)
  end.

(** [std::getline(std::cin, Buf)].  On a stream that is no longer good the
    call fails at once and leaves [Buf] alone; otherwise [Buf] is erased and
    filled up to the newline, which is consumed, or up to the end of the
    stream, which ends [good()]. *)
Definition getline (st : state) : state :=
  if cin_good st then
    match split_line (cin st) with
    | (l, Some rest) => set_Buf l (set_cin rest true st)
    | (l, None) => set_Buf l (set_cin "" false st)
    end
  else st.

(** [getBufChar].  The prompt it prints before reading a line is output
    only and is not recorded.  [Buf.c_str()[Index]] is the terminating NUL
    at [Index = Buf.size()], which the refill above it rules out. *)
Definition getBufChar (st : state) : ascii * state :=
  let st1 :=
    if (String.length (Buf st) <=? Index st)%nat then
      let st' := getline st in
      set_Index 0 (set_Buf (Buf st' ++ String "010"%char "") st')
    else st in
  (match String.get (Index st1) (Buf st1) with
   | Some c => c
   | None => "000"%char
   end,
   set_Index (S (Index st1)) st1).

(** [LastChar = getBufChar()] *)
Definition advance (st : state) : state :=
  let '(c, st') := getBufChar st in set_LastChar (int_of_char c) st'.

Arguments advance : simpl never.

(** ** The lexer

    Every loop and the recursive call of [gettok] take fuel; [None] means
    the fuel ran out before the function returned. *)

(** [while (isspace(LastChar)) LastChar = getBufChar();] *)
Fixpoint skip_space (n : nat) (st : state) : option state :=
  if isspace (LastChar st) then
    match n with
    | O => None
    | S n' => skip_space n' (advance st)
    end
  else Some st.

(** [while (isalnum((LastChar = getBufChar()))) IdentifierStr += LastChar;] *)
Fixpoint read_identifier (n : nat) (st : state) : option state :=
  match n with
  | O => None
  | S n' =>
      let st1 := advance st in
      if isalnum (LastChar st1)
      then read_identifier n'
             (set_IdentifierStr
                (IdentifierStr st1 ++ String (char_of_int (LastChar st1)) "") st1)
      else Some st1
  end.

(** [do { NumStr += LastChar; LastChar = getBufChar(); }
     while (isdigit(LastChar) || LastChar == '.');] *)
Fixpoint read_number (n : nat) (NumStr : string) (st : state)
  : option (string * state) :=
  match n with
  | O => None
  | S n' =>
      let NumStr1 := NumStr ++ String (char_of_int (LastChar st)) "" in
      let st1 := advance st in
      if isdigit (LastChar st1) || (LastChar st1 =? 46)
      then read_number n' NumStr1 st1
      else Some (NumStr1, st1)
  end.

(** [do LastChar = getBufChar();
     while (LastChar != EOF && LastChar != '\n' && LastChar != '\r');] *)
Fixpoint skip_comment (n : nat) (st : state) : option state :=
  match n with
  | O => None
  | S n' =>
      let st1 := advance st in
      if negb (LastChar st1 =? EOF) && negb (LastChar st1 =? 10)
         && negb (LastChar st1 =? 13)
      then skip_comment n' st1
      else Some st1
  end.

(** The last two statements of [gettok]:
    [if (LastChar == EOF) return tok_eof;
     int ThisChar = LastChar; LastChar = getBufChar(); return ThisChar;] *)
Definition gettok_char (st : state) : Z * state :=
  if LastChar st =? EOF then (tok_eof, st)
  else (LastChar st, advance st).

Fixpoint gettok (src : source_file) (n : nat) (st : state) : option (Z * state) :=
  match n with
  | O => None
  | S n' =>
      if newline_is_semicolon src && (LastChar st =? 10)
      then Some (59, set_LastChar 32 st)
      else
        match skip_space n' st with
        | None => None
        | Some st1 =>
            if isalpha (LastChar st1) then
              match read_identifier n'
                      (set_IdentifierStr
                         (String (char_of_int (LastChar st1)) "") st1) with
              | None => None
              | Some st2 =>
                  if String.eqb (IdentifierStr st2) "def"
                  then Some (tok_def, st2)
                  else if String.eqb (IdentifierStr st2) "extern"
                  then Some (tok_extern, st2)
                  else Some (tok_identifier, st2)
              end
            else if isdigit (LastChar st1) || (LastChar st1 =? 46) then
              match read_number n' "" st1 with
              | None => None
              | Some (NumStr, st2) =>
                  Some (tok_number, set_NumVal (strtod NumStr) st2)
              end
            else if LastChar st1 =? 35 then
              match skip_comment n' st1 with
              | None => None
              | Some st2 =>
                  if negb (LastChar st2 =? EOF) then gettok src n' st2
                  else Some (gettok_char st2)
              end
            else Some (gettok_char st1)
        end
  end.

(** [getNextToken] *)
Definition getNextToken (src : source_file) (n : nat) (st : state)
  : option (Z * state) :=
  match gettok src n st with
  | None => None
  | Some (t, st') => Some (t, set_CurTok t st')
  end.

(** ** The AST *)

#[warnings="-register-all"]
Inductive ExprAST : Type :=
| NumberExprAST (Val : Q)
| VariableExprAST (Name : string)
| BinaryExprAST (Op : ascii) (LHS RHS : ExprAST)
| CallExprAST (Callee : string) (Args : list ExprAST).

Record PrototypeAST := mkPrototypeAST {
  Name : string;
  Args : list string
}.

Record FunctionAST := mkFunctionAST {
  Proto : PrototypeAST;
  Body : ExprAST
}.

(** ** The parser

    A parse function returns [None] when the fuel ran out, and otherwise the
    pointer it returns in the source ([None] for [nullptr]) with the state
    it leaves. *)

Notation "'let?' p ':=' e 'in' k" :=
  (match e with Some p => k | None => None end)
  (at level 10, p pattern, e at level 200, k at level 200, only parsing).

(** [LogError] and [LogErrorP]: write the message, return [nullptr]. *)
Definition LogError (Str : string) (st : state) : state :=
  set_errs (errs st ++ [Str])%list st.

(** [GetTokPrecedence].  [BinopPrecedence[CurTok]] inserts a zero entry for
    a key that is absent; [isascii] has put [CurTok] in 0..127, where the
    conversion of the [int] to the [char] key keeps its value. *)
Definition GetTokPrecedence (st : state) : Z * state :=
  if negb (isascii (CurTok st)) then (-1, st)
  else
    let '(TokPrec, st') :=
      match BinopPrecedence st !! CurTok st with
      | Some v => (v, st)
      | None =>
          (0, set_BinopPrecedence (<[CurTok st := 0]> (BinopPrecedence st)) st)
      end in
    if TokPrec <=? 0 then (-1, st') else (TokPrec, st').

Definition ParseNumberExpr (src : source_file) (n : nat) (st : state)
  : option (option ExprAST * state) :=
  let Result := NumberExprAST (NumVal st) in
  let? (_, st1) := getNextToken src n st in
  Some (Some Result, st1).

Fixpoint ParsePrimary (src : source_file) (n : nat) (st : state) {struct n}
  : option (option ExprAST * state) :=
  match n with
  | O => None
  | S n' =>
      if CurTok st =? tok_identifier then ParseIdentifierExpr src n' st
      else if CurTok st =? tok_number then ParseNumberExpr src n' st
      else if CurTok st =? 40 then ParseParenExpr src n' st
      else Some (None, LogError "unknown token" st)
  end

with ParseParenExpr (src : source_file) (n : nat) (st : state) {struct n}
  : option (option ExprAST * state) :=
  match n with
  | O => None
  | S n' =>
      let? (_, st1) := getNextToken src n' st in
      let? (r, st2) := ParseExpression src n' st1 in
      match r with
      | None => Some (None, st2)
      | Some V =>
          if negb (CurTok st2 =? 41)
          then Some (None, LogError "expected ')'" st2)
          else
            let? (_, st3) := getNextToken src n' st2 in
            Some (Some V, st3)
      end
  end

with ParseIdentifierExpr (src : source_file) (n : nat) (st : state) {struct n}
  : option (option ExprAST * state) :=
  match n with
  | O => None
  | S n' =>
      let IdName := IdentifierStr st in
      let? (_, st1) := getNextToken src n' st in
      if negb (CurTok st1 =? 40)
      then Some (Some (VariableExprAST IdName), st1)
      else
        let? (_, st2) := getNextToken src n' st1 in
        let? (r, st3) := (if negb (CurTok st2 =? 41)
                      then ParseIdentifierExpr_args src n' [] st2
                      else Some (Some [], st2)) in
        match r with
        | None => Some (None, st3)
        | Some Args =>
            let? (_, st4) := getNextToken src n' st3 in
            Some (Some (CallExprAST IdName Args), st4)
        end
  end

(** the [while (true)] loop of [ParseIdentifierExpr] *)
with ParseIdentifierExpr_args (src : source_file) (n : nat)
       (Args : list ExprAST) (st : state) {struct n}
  : option (option (list ExprAST) * state) :=
  match n with
  | O => None
  | S n' =>
      let? (r, st1) := ParseExpression src n' st in
      match r with
      | None => Some (None, st1)
      | Some Arg =>
          let Args1 := (Args ++ [Arg])%list in
          if CurTok st1 =? 41 then Some (Some Args1, st1)
          else if negb (CurTok st1 =? arg_separator src)
          then Some (None,
                     LogError "expected ')' or ',' in argument list" st1)
          else
            let? (_, st2) := getNextToken src n' st1 in
            ParseIdentifierExpr_args src n' Args1 st2
      end
  end

with ParseExpression (src : source_file) (n : nat) (st : state) {struct n}
  : option (option ExprAST * state) :=
  match n with
  | O => None
  | S n' =>
      let? (r, st1) := ParsePrimary src n' st in
      match r with
      | None => Some (None, st1)
      | Some LHS => ParseBinOpRHS src n' 0 LHS st1
      end
  end

(** one turn of the [while (1)] loop of [ParseBinOpRHS] per unit of fuel *)
with ParseBinOpRHS (src : source_file) (n : nat) (ExprPrec : Z)
       (LHS : ExprAST) (st : state) {struct n}
  : option (option ExprAST * state) :=
  match n with
  | O => None
  | S n' =>
      let '(TokPrec, st1) := GetTokPrecedence st in
      if TokPrec <? ExprPrec then Some (Some LHS, st1)
      else
        let BinOp := CurTok st1 in
        let? (_, st2) := getNextToken src n' st1 in
        let? (r, st3) := ParsePrimary src n' st2 in
        match r with
        | None => Some (None, st3)
        | Some RHS =>
            let '(NextPrec, st4) := GetTokPrecedence st3 in
            let? (r', st5) := (if TokPrec <? NextPrec
                           then ParseBinOpRHS src n' TokPrec RHS st4
                           else Some (Some RHS, st4)) in
            match r' with
            | None => Some (None, st5)
            | Some RHS' =>
                ParseBinOpRHS src n' ExprPrec
                  (BinaryExprAST (char_of_int BinOp) LHS RHS') st5
            end
        end
  end.

(** [while (getNextToken() == tok_identifier) ArgNames.push_back(IdentifierStr);] *)
Fixpoint ParsePrototype_args (src : source_file) (n : nat)
    (ArgNames : list string) (st : state) : option (list string * state) :=
  match n with
  | O => None
  | S n' =>
      let? (t, st1) := getNextToken src n' st in
      if t =? tok_identifier
      then ParsePrototype_args src n' (ArgNames ++ [IdentifierStr st1])%list st1
      else Some (ArgNames, st1)
  end.

Definition ParsePrototype (src : source_file) (n : nat) (st : state)
  : option (option PrototypeAST * state) :=
  if negb (CurTok st =? tok_identifier)
  then Some (None, LogError "expected function name" st)
  else
    let FnName := IdentifierStr st in
    let? (_, st1) := getNextToken src n st in
    if negb (CurTok st1 =? 40)
    then Some (None, LogError "expected '('" st1)
    else
      let? (ArgNames, st2) := ParsePrototype_args src n [] st1 in
      if negb (CurTok st2 =? 41)
      then Some (None, LogError "expected ')'" st2)
      else
        let? (_, st3) := getNextToken src n st2 in
        Some (Some (mkPrototypeAST FnName ArgNames), st3).

Definition ParseDefinition (src : source_file) (n : nat) (st : state)
  : option (option FunctionAST * state) :=
  let? (_, st1) := getNextToken src n st in
  let? (p, st2) := ParsePrototype src n st1 in
  match p with
  | None => Some (None, st2)
  | Some Proto =>
      let? (r, st3) := ParseExpression src n st2 in
      match r with
      | Some E => Some (Some (mkFunctionAST Proto E), st3)
      | None => Some (None, st3)
      end
  end.

Definition ParseExtern (src : source_file) (n : nat) (st : state)
  : option (option PrototypeAST * state) :=
  let? (_, st1) := getNextToken src n st in
  ParsePrototype src n st1.

Definition ParseTopLevelExpr (src : source_file) (n : nat) (st : state)
  : option (option FunctionAST * state) :=
  let? (r, st1) := ParseExpression src n st in
  match r with
  | Some E =>
      let Proto := mkPrototypeAST (anon_name src) [] in
      Some (Some (mkFunctionAST Proto E), st1)
  | None => Some (None, st1)
  end.

(** ** The driver of [src/main.cpp]

    A handler prints a line when the parse succeeded and drops one token
    when it failed.  (In the second source file the successful branch hands
    the node to the code generator, which is outside this development.) *)

Definition HandleDefinition (n : nat) (st : state) : option state :=
  let? (r, st1) := ParseDefinition main_cpp n st in
  match r with
  | Some _ => Some st1
  | None => let? (_, st2) := getNextToken main_cpp n st1 in Some st2
  end.

Definition HandleExtern (n : nat) (st : state) : option state :=
  let? (r, st1) := ParseExtern main_cpp n st in
  match r with
  | Some _ => Some st1
  | None => let? (_, st2) := getNextToken main_cpp n st1 in Some st2
  end.

Definition HandleTopLevelExpression (n : nat) (st : state) : option state :=
  let? (r, st1) := ParseTopLevelExpr main_cpp n st in
  match r with
  | Some _ => Some st1
  | None => let? (_, st2) := getNextToken main_cpp n st1 in Some st2
  end.

(** one turn of the [while (1)] loop per unit of fuel; [Some] is the state
    in which the loop returned *)
Fixpoint MainLoop (n : nat) (st : state) : option state :=
  match n with
  | O => None
  | S n' =>
      if CurTok st =? tok_eof then Some st
      else if CurTok st =? 59 then
        let? (_, st1) := getNextToken main_cpp n' st in MainLoop n' st1
      else if CurTok st =? tok_def then
        let? st1 := HandleDefinition n' st in MainLoop n' st1
      else if CurTok st =? tok_extern then
        let? st1 := HandleExtern n' st in MainLoop n' st1
      else
        let? st1 := HandleTopLevelExpression n' st in MainLoop n' st1
  end.

(** the four assignments at the start of [main] (both source files) *)
Definition install_operators (st : state) : state :=
  set_BinopPrecedence
    (<[42 := 40]> (<[45 := 20]> (<[43 := 20]> (<[60 := 10]>
       (BinopPrecedence st))))) st.

Definition main (n : nat) (input : string) : option state :=
  let? (_, st1) := getNextToken main_cpp n (install_operators (initial input)) in
  MainLoop n st1.

(** The state in which [main] enters [MainLoop]: operators installed and
    the first token read. *)
Definition start (src : source_file) (n : nat) (input : string)
  : option state :=
  let? (_, st1) := getNextToken src n (install_operators (initial input)) in
  Some st1.


(** ** Definitions used in the statements *)

(** [[A-Za-z][A-Za-z0-9]*] *)
Fixpoint all_alnum (s : string) : bool :=
  match s with
  | EmptyString => true
  | String c r => isalnum (int_of_char c) && all_alnum r
  end.

Definition is_identifier (s : string) : bool :=
  match s with
  | EmptyString => false
  | String c r => isalpha (int_of_char c) && all_alnum r
  end.

(** A character that [gettok] returns as itself. *)
Definition punctuation (t : Z) : Prop :=
  isspace t = false /\ isalpha t = false /\ isdigit t = false
  /\ t <> 46 /\ t <> 35 /\ t <> EOF.

(** The precedence a later query reads for token [t] in state [st]. *)
Definition precedence_of (t : Z) (st : state) : Z :=
  fst (GetTokPrecedence (set_CurTok t st)).

(** The precedence [main] gives an operator character. *)
Definition default_precedence (o : ascii) : Z :=
  precedence_of (int_of_char o) (install_operators (initial "")).

(** [le_res a b]: whatever [a] returns, [b] returns too. *)
Definition le_res {A : Type} (a b : option A) : Prop :=
  forall r, a = Some r -> b = Some r.

(** A buffer of newlines only. *)
Fixpoint all_newlines (s : string) : Prop :=
  match s with
  | EmptyString => True
  | String c r => c = "010"%char /\ all_newlines r
  end.

(** The state of the lexer once standard input is used up and only the
    newlines that [getBufChar] adds are left to read. *)
Definition drained (st : state) : Prop :=
  cin st = "" /\ all_newlines (Buf st).

(** the newline character, as a string *)
Definition nl : string := String "010"%char "".

(** The tokens of the first [k] calls of [gettok], each with fuel [n]. *)
Fixpoint lex (src : source_file) (n k : nat) (st : state)
  : option (list Z) :=
  match k with
  | O => Some []
  | S k' =>
      let? (t, st1) := gettok src n st in
      let? ts := lex src n k' st1 in
      Some (t :: ts)
  end.

(** No character that ends the loop of a comment: no newline, no carriage
    return and no character whose value is [EOF] (the byte 255). *)
Fixpoint no_eol (s : string) : bool :=
  match s with
  | EmptyString => true
  | String c r =>
      negb (int_of_char c =? EOF) && negb (int_of_char c =? 10)
      && negb (int_of_char c =? 13) && no_eol r
  end.

(** Every character of [s] is below 128: none reads as a negative [int]. *)
Fixpoint seven_bit (s : string) : bool :=
  match s with
  | EmptyString => true
  | String c r => (0 <=? int_of_char c) && seven_bit r
  end.

(** The lexer has not met a negative character, and none is left to read in
    the line buffer or on standard input. *)
Definition plain (st : state) : Prop :=
  0 <= LastChar st /\ seven_bit (Buf st) = true /\ seven_bit (cin st) = true.

(** The state [gettok] is in after it has read the line [# c] to its end:
    the line is in [Buf] and used up, and [LastChar] is its newline. *)
Definition comment_read (c rest : string) (st : state) : state :=
  set_LastChar 10
    (set_Index (String.length c + 2)
       (set_Buf (String "#"%char c ++ nl) (set_cin rest true st))).

(** The messages the parse functions pass to [LogError] and [LogErrorP]. *)
Definition parser_messages : list string :=
  ["unknown token"; "expected ')'"; "expected ')' or ',' in argument list";
   "expected function name"; "expected '('"].

(** The token [gettok] returns for the word it has collected in
    [IdentifierStr]. *)
Definition word_token (s : string) : Z :=
  if String.eqb s "def" then tok_def
  else if String.eqb s "extern" then tok_extern
  else tok_identifier.

(** digits and dots only *)
Fixpoint all_number_chars (s : string) : bool :=
  match s with
  | EmptyString => true
  | String c r =>
      (isdigit (int_of_char c) || (int_of_char c =? 46)) && all_number_chars r
  end.

(** no newline *)
Fixpoint no_newline (s : string) : bool :=
  match s with
  | EmptyString => true
  | String c r => negb (Ascii.eqb c "010"%char) && no_newline r
  end.

(** The characters of [k] calls of [getBufChar], in the order read. *)
Fixpoint getBufChars (k : nat) (st : state) : string * state :=
  match k with
  | O => (EmptyString, st)
  | S k' =>
      let '(c, st1) := getBufChar st in
      let '(s, st2) := getBufChars k' st1 in
      (String c s, st2)
  end.

(** Every operator of a binary node of [E] satisfies [ok]. *)
Fixpoint operators_ok (ok : ascii -> Prop) (E : ExprAST) : Prop :=
  match E with
  | NumberExprAST _ => True
  | VariableExprAST _ => True
  | BinaryExprAST Op LHS RHS =>
      ok Op /\ operators_ok ok LHS /\ operators_ok ok RHS
  | CallExprAST _ Args =>
      (fix all (l : list ExprAST) : Prop :=
         match l with
         | [] => True
         | a :: l' => operators_ok ok a /\ all l'
         end) Args
  end.

(** [operators_ok] for each expression of a list. *)
Fixpoint all_operators_ok (ok : ascii -> Prop) (l : list ExprAST) : Prop :=
  match l with
  | [] => True
  | a :: l' => operators_ok ok a /\ all_operators_ok ok l'
  end.

(** The current token is not [tok_eof] and the lexer cannot meet [EOF]. *)
Definition alive (st : state) : Prop :=
  CurTok st <> tok_eof /\ plain st.

(** What holds of the state a parse function leaves: [A] when it returned a
    node, [B] when it returned [nullptr]. *)
Definition outcome {T : Type} (A B : state -> Prop) (r : option T)
    (st : state) : Prop :=
  match r with
  | Some _ => A st
  | None => B st
  end.

(** [st'] has the messages of [st] and no other. *)
Definition logs_nothing (st st' : state) : Prop := errs st' = errs st.

(** [st'] has the messages of [st] and one more, which is one of the
    parser's. *)
Definition logs_one_message (st st' : state) : Prop :=
  exists msg, In msg parser_messages /\ errs st' = (errs st ++ [msg])%list.

(** Every token has in [st'] the precedence it has in [st]. *)
Definition same_precedences (st st' : state) : Prop :=
  forall t, precedence_of t st' = precedence_of t st.

(** [op] is an operator of the table of [st]: its precedence is positive. *)
Definition registered (st : state) (op : ascii) : Prop :=
  0 < precedence_of (int_of_char op) st.

(** [s] is the text of an identifier token: of the form
    [[A-Za-z][A-Za-z0-9]*] and not a keyword. *)
Definition is_name (s : string) : Prop :=
  is_identifier s = true /\ word_token s = tok_identifier.

(** * Properties *)

(** ** Characters and the state *)

Lemma strtod_examples :
  strtod "5." == 5 # 1 /\ strtod ".5" == 1 # 2 /\ strtod "1.25" == 5 # 4
  /\ strtod "1.2.3" == 6 # 5 /\ strtod "." == 0 /\ strtod "10" == 10 # 1.
Proof. repeat split; vm_compute; reflexivity. Qed.

Lemma int_of_char_examples :
  int_of_char "a" = 97 /\ int_of_char "127"%char = 127
  /\ int_of_char "128"%char = -128 /\ int_of_char "252"%char = tok_identifier
  /\ int_of_char "255"%char = EOF.
Proof. repeat split; vm_compute; reflexivity. Qed.

Lemma int_of_char_range (c : ascii) : -128 <= int_of_char c < 128.
Proof.
  pose proof (N_ascii_bounded c). unfold int_of_char. cbv zeta.
  destruct (Z.ltb_spec (Z.of_N (N_of_ascii c)) 128); lia.
Qed.

Lemma int_of_char_of_int (z : Z) :
  0 <= z < 128 -> int_of_char (char_of_int z) = z.
Proof.
  intros Hz. unfold int_of_char, char_of_int. cbv zeta.
  rewrite Z.mod_small by lia.
  rewrite N_ascii_embedding by lia.
  rewrite Z2N.id by lia.
  destruct (Z.ltb_spec z 128); lia.
Qed.

Lemma isalpha_range (z : Z) : isalpha z = true -> 0 <= z < 128.
Proof. unfold isalpha. lia. Qed.

Lemma isalnum_range (z : Z) : isalnum z = true -> 0 <= z < 128.
Proof. unfold isalnum, isalpha, isdigit. lia. Qed.

(** ** [ParsePrimary]: the default case *)

(** C7 (as the code has it): when the current token is neither an
    identifier, a number nor an opening parenthesis, [ParsePrimary] returns
    [nullptr], reads nothing, and the one message it writes is
    "unknown token". *)
Theorem ParsePrimary_unknown_token (src : source_file) (n : nat) (st : state) :
  CurTok st <> tok_identifier ->
  CurTok st <> tok_number ->
  CurTok st <> 40 ->
  ParsePrimary src (S n) st
  = Some (None, set_errs (errs st ++ ["unknown token"])%list st).
Proof.
  intros Hid Hnum Hpar. simpl.
  destruct (Z.eqb_spec (CurTok st) tok_identifier) as [E|_]; [contradiction|].
  destruct (Z.eqb_spec (CurTok st) tok_number) as [E|_]; [contradiction|].
  destruct (Z.eqb_spec (CurTok st) 40) as [E|_]; [contradiction|].
  reflexivity.
Qed.

Lemma ParsePrimary_unknown_token_witness :
  ParsePrimary jit_cpp 1 (set_CurTok 41 (initial ""))
  = Some (None, set_errs ["unknown token"] (set_CurTok 41 (initial ""))).
Proof.
  apply (ParsePrimary_unknown_token jit_cpp 0 (set_CurTok 41 (initial "")));
    vm_compute; discriminate.
Defined.

(** C7 as the specification words it fails: on the input [)] the message
    written is "unknown token", not "unknown token when expecting an
    expression". *)
Lemma ParsePrimary_message_counterexample :
  (let? st := start main_cpp 10 ")" in
   let? (r, st') := ParsePrimary main_cpp 10 st in
   Some (CurTok st, r, errs st'))
  = Some (41, None, ["unknown token"])
  /\ (let? st := start main_cpp 10 ")" in
      let? (_, st') := ParsePrimary main_cpp 10 st in Some (errs st'))
     <> Some ["unknown token when expecting an expression"].
Proof. split; vm_compute; [reflexivity | discriminate]. Qed.

(** ** [GetTokPrecedence] *)

Section Precedence.

Variable st : state.

Lemma GetTokPrecedence_not_ascii :
  isascii (CurTok st) = false -> GetTokPrecedence st = (-1, st).
Proof. intros H. unfold GetTokPrecedence. rewrite H. reflexivity. Qed.

Lemma GetTokPrecedence_absent :
  isascii (CurTok st) = true -> BinopPrecedence st !! CurTok st = None ->
  GetTokPrecedence st
  = (-1, set_BinopPrecedence (<[CurTok st := 0]> (BinopPrecedence st)) st).
Proof.
  intros H1 H2. unfold GetTokPrecedence.
  rewrite H1, H2. reflexivity.
Qed.

Lemma GetTokPrecedence_present (v : Z) :
  isascii (CurTok st) = true -> BinopPrecedence st !! CurTok st = Some v ->
  GetTokPrecedence st = (if v <=? 0 then -1 else v, st).
Proof.
  intros H1 H2. unfold GetTokPrecedence.
  rewrite H1, H2. simpl. destruct (v <=? 0); reflexivity.
Qed.

(** The three cases of the function. *)
Lemma GetTokPrecedence_cases :
  (isascii (CurTok st) = false /\ GetTokPrecedence st = (-1, st))
  \/ (isascii (CurTok st) = true /\ BinopPrecedence st !! CurTok st = None
      /\ GetTokPrecedence st
         = (-1, set_BinopPrecedence
                  (<[CurTok st := 0]> (BinopPrecedence st)) st))
  \/ (exists v, isascii (CurTok st) = true
      /\ BinopPrecedence st !! CurTok st = Some v
      /\ GetTokPrecedence st = (if v <=? 0 then -1 else v, st)).
Proof.
  destruct (isascii (CurTok st)) eqn:Ha.
  - destruct (BinopPrecedence st !! CurTok st) as [v|] eqn:Hl.
    + right; right. exists v. auto using GetTokPrecedence_present.
    + right; left. auto using GetTokPrecedence_absent.
  - left. auto using GetTokPrecedence_not_ascii.
Qed.

End Precedence.

Lemma precedence_of_table (t : Z) (st1 st2 : state) :
  (forall v, 0 < v ->
     BinopPrecedence st1 !! t = Some v <-> BinopPrecedence st2 !! t = Some v) ->
  precedence_of t st1 = precedence_of t st2.
Proof.
  intros H. unfold precedence_of, GetTokPrecedence. simpl.
  destruct (isascii t); simpl; [|reflexivity].
  destruct (BinopPrecedence st1 !! t) as [v1|] eqn:E1;
    destruct (BinopPrecedence st2 !! t) as [v2|] eqn:E2; simpl.
  all: try destruct (Z.leb_spec v1 0); try destruct (Z.leb_spec v2 0);
    simpl; try reflexivity.
  all: try (destruct (H v1 ltac:(lia)) as [A _]; specialize (A eq_refl);
            first [congruence | assert (v1 = v2) by congruence; lia]).
  all: try (destruct (H v2 ltac:(lia)) as [_ B]; specialize (B eq_refl);
            first [congruence | assert (v1 = v2) by congruence; lia]).
Qed.

(** C9: [GetTokPrecedence] never returns 0: the result is -1 exactly when
    the token is not ASCII, not in the table, or in it with a value that is
    not positive, and otherwise it is the positive value in the table; the
    zero entry a query of an absent ASCII character inserts changes the
    result of no later query. *)
Theorem GetTokPrecedence_never_zero (st : state) :
  let p := fst (GetTokPrecedence st) in
  let st' := snd (GetTokPrecedence st) in
  p <> 0
  /\ (p = -1 \/ (0 < p /\ BinopPrecedence st !! CurTok st = Some p))
  /\ (p = -1 <->
      (isascii (CurTok st) = false
       \/ BinopPrecedence st !! CurTok st = None
       \/ exists v, BinopPrecedence st !! CurTok st = Some v /\ v <= 0))
  /\ (isascii (CurTok st) = true -> BinopPrecedence st !! CurTok st = None ->
      BinopPrecedence st' !! CurTok st = Some 0)
  /\ (forall t, precedence_of t st' = precedence_of t st).
Proof.
  destruct (GetTokPrecedence_cases st) as [[Ha E]|[(Ha & Hl & E)|(v & Ha & Hl & E)]];
    rewrite E; cbn [fst snd].
  - repeat split; try lia; auto; try congruence.
  - repeat split; try lia; auto.
    + intros _ _. simpl. apply lookup_insert_eq.
    + intros t. apply precedence_of_table. intros v Hv. simpl.
      destruct (decide (CurTok st = t)) as [<-|Hne].
      * rewrite lookup_insert_eq, Hl.
        split; intros HH; [injection HH; lia | discriminate].
      * rewrite lookup_insert_ne by assumption. reflexivity.
  - destruct (Z.leb_spec v 0).
    + repeat split; try lia; auto; try congruence.
      intros _. right; right. eauto.
    + repeat split; try lia; auto; try congruence.
      intros [H1|[H1|(w & H1 & H2)]]; try congruence.
      assert (w = v) by congruence. lia.
Qed.

Lemma GetTokPrecedence_never_zero_witness :
  let st := set_CurTok 33 (install_operators (initial "")) in
  fst (GetTokPrecedence st) = -1
  /\ BinopPrecedence (snd (GetTokPrecedence st)) !! 33 = Some 0
  /\ precedence_of 43 (snd (GetTokPrecedence st)) = precedence_of 43 st.
Proof.
  intros st.
  destruct (GetTokPrecedence_never_zero st) as (_ & _ & H3 & H4 & H5).
  split; [|split].
  - apply H3. right; left. vm_compute. reflexivity.
  - apply H4; vm_compute; reflexivity.
  - apply H5.
Defined.

(** ** The lexer: which tokens [gettok] can return *)

Lemma all_alnum_app_char (s : string) (z : Z) :
  all_alnum s = true -> isalnum z = true ->
  all_alnum (s ++ String (char_of_int z) "") = true.
Proof.
  intros Hs Hz. induction s as [|c r IH]; simpl in *.
  - rewrite int_of_char_of_int by (apply isalnum_range; assumption).
    rewrite Hz. reflexivity.
  - apply andb_true_iff in Hs as [Hc Hr]. rewrite Hc. simpl. auto.
Qed.

Lemma is_identifier_app_char (s : string) (z : Z) :
  is_identifier s = true -> isalnum z = true ->
  is_identifier (s ++ String (char_of_int z) "") = true.
Proof.
  destruct s as [|c r]; simpl; [discriminate|].
  intros H Hz. apply andb_true_iff in H as [Hc Hr]. rewrite Hc. simpl.
  apply all_alnum_app_char; assumption.
Qed.

Lemma is_identifier_char (z : Z) :
  isalpha z = true -> is_identifier (String (char_of_int z) "") = true.
Proof.
  intros Hz. simpl.
  rewrite int_of_char_of_int by (apply isalpha_range; assumption).
  rewrite Hz. reflexivity.
Qed.

Lemma IdentifierStr_advance (st : state) :
  IdentifierStr (advance st) = IdentifierStr st.
Proof.
  unfold advance, getBufChar, getline.
  destruct (String.length (Buf st) <=? Index st)%nat; [|reflexivity].
  destruct (cin_good st); [|reflexivity].
  destruct (split_line (cin st)) as [l [r|]]; reflexivity.
Qed.

Lemma skip_space_not_space (n : nat) :
  forall st st1, skip_space n st = Some st1 -> isspace (LastChar st1) = false.
Proof.
  induction n as [|n IH]; intros st st1; cbn [skip_space];
    destruct (isspace (LastChar st)) eqn:E; try discriminate.
  - intros [= <-]. exact E.
  - apply IH.
  - intros [= <-]. exact E.
Qed.

Lemma skip_space_id (n : nat) (st : state) :
  isspace (LastChar st) = false -> skip_space n st = Some st.
Proof. intros H. destruct n; cbn [skip_space]; rewrite H; reflexivity. Qed.

Lemma read_identifier_is_identifier (n : nat) :
  forall st st1,
    is_identifier (IdentifierStr st) = true ->
    read_identifier n st = Some st1 ->
    is_identifier (IdentifierStr st1) = true.
Proof.
  induction n as [|n IH]; intros st st1 Hid; cbn [read_identifier];
    [discriminate|].
  destruct (isalnum (LastChar (advance st))) eqn:E.
  - apply IH. cbn [IdentifierStr set_IdentifierStr].
    rewrite IdentifierStr_advance.
    apply is_identifier_app_char; assumption.
  - intros [= <-]. rewrite IdentifierStr_advance. exact Hid.
Qed.

(** *** Input below 128 stays below 128 *)

Lemma seven_bit_app (s t : string) :
  seven_bit s = true -> seven_bit t = true -> seven_bit (s ++ t) = true.
Proof.
  intros Hs Ht. induction s as [|c r IH]; simpl in *; [exact Ht|].
  apply andb_true_iff in Hs as [Hc Hr]. rewrite Hc. simpl. auto.
Qed.

Lemma seven_bit_get (s : string) :
  forall i c,
    seven_bit s = true -> String.get i s = Some c -> 0 <= int_of_char c.
Proof.
  induction s as [|a r IH]; intros i c Hs; simpl; [discriminate|].
  simpl in Hs. apply andb_true_iff in Hs as [Ha Hr].
  destruct i as [|i].
  - intros [= <-]. lia.
  - apply IH. exact Hr.
Qed.

Lemma seven_bit_split_line (s : string) :
  forall l r,
    seven_bit s = true -> split_line s = (l, r) ->
    seven_bit l = true /\ seven_bit (default "" r) = true.
Proof.
  induction s as [|a t IH]; intros l r Hs; simpl.
  - intros [= <- <-]. split; reflexivity.
  - simpl in Hs. apply andb_true_iff in Hs as [Ha Ht].
    destruct (Ascii.eqb a "010"%char).
    + intros [= <- <-]. split; [reflexivity | exact Ht].
    + destruct (split_line t) as [l1 r1]. intros [= <- <-].
      destruct (IH l1 r1 Ht eq_refl) as [H1 H2].
      split; [|exact H2]. simpl. rewrite Ha, H1. reflexivity.
Qed.

Lemma seven_bit_getline (st : state) :
  seven_bit (Buf st) = true -> seven_bit (cin st) = true ->
  seven_bit (Buf (getline st)) = true /\ seven_bit (cin (getline st)) = true.
Proof.
  intros HB HC. unfold getline.
  destruct (cin_good st); [|split; assumption].
  destruct (split_line (cin st)) as [l r] eqn:E.
  destruct (seven_bit_split_line _ _ _ HC E) as [Hl Hr].
  destruct r as [rest|]; split; assumption || reflexivity.
Qed.

Lemma plain_advance (st : state) :
  seven_bit (Buf st) = true -> seven_bit (cin st) = true -> plain (advance st).
Proof.
  intros HB HC. unfold plain, advance, getBufChar.
  destruct (seven_bit_getline st HB HC) as [HB' HC'].
  destruct (String.length (Buf st) <=? Index st)%nat;
    cbn [LastChar Buf cin Index set_LastChar set_Index set_Buf].
  - split; [|split; [|exact HC']].
    + destruct (String.get 0 (Buf (getline st) ++ String "010"%char ""))
        as [c|] eqn:E; [|vm_compute; discriminate].
      eapply seven_bit_get; [|exact E].
      apply seven_bit_app; [exact HB' | reflexivity].
    + apply seven_bit_app; [exact HB' | reflexivity].
  - split; [|split; assumption].
    destruct (String.get (Index st) (Buf st)) as [c|] eqn:E;
      [|vm_compute; discriminate].
    eapply seven_bit_get; [exact HB | exact E].
Qed.

Lemma plain_advance' (st : state) : plain st -> plain (advance st).
Proof. intros (_ & HB & HC). apply plain_advance; assumption. Qed.

Lemma plain_set_IdentifierStr (s : string) (st : state) :
  plain st -> plain (set_IdentifierStr s st).
Proof. intros H. exact H. Qed.

Lemma plain_set_CurTok (t : Z) (st : state) :
  plain st -> plain (set_CurTok t st).
Proof. intros H. exact H. Qed.

Lemma skip_space_plain (n : nat) :
  forall st st1, plain st -> skip_space n st = Some st1 -> plain st1.
Proof.
  induction n as [|n IH]; intros st st1 Hp; cbn [skip_space];
    destruct (isspace (LastChar st)); try discriminate.
  - intros [= <-]. exact Hp.
  - apply IH. apply plain_advance'. exact Hp.
  - intros [= <-]. exact Hp.
Qed.

Lemma read_identifier_plain (n : nat) :
  forall st st1, plain st -> read_identifier n st = Some st1 -> plain st1.
Proof.
  induction n as [|n IH]; intros st st1 Hp; cbn [read_identifier];
    [discriminate|].
  pose proof (plain_advance' st Hp) as Hp1.
  destruct (isalnum (LastChar (advance st))).
  - apply IH. apply plain_set_IdentifierStr. exact Hp1.
  - intros [= <-]. exact Hp1.
Qed.

Lemma read_number_plain (n : nat) :
  forall s st s1 st1,
    plain st -> read_number n s st = Some (s1, st1) -> plain st1.
Proof.
  induction n as [|n IH]; intros s st s1 st1 Hp; cbn [read_number];
    [discriminate|].
  pose proof (plain_advance' st Hp) as Hp1.
  destruct (isdigit (LastChar (advance st)) || (LastChar (advance st) =? 46)).
  - apply IH. exact Hp1.
  - intros [= <- <-]. exact Hp1.
Qed.

Lemma skip_comment_plain (n : nat) :
  forall st st1, plain st -> skip_comment n st = Some st1 -> plain st1.
Proof.
  induction n as [|n IH]; intros st st1 Hp; cbn [skip_comment]; [discriminate|].
  pose proof (plain_advance' st Hp) as Hp1.
  destruct (negb (LastChar (advance st) =? EOF)
            && negb (LastChar (advance st) =? 10)
            && negb (LastChar (advance st) =? 13)).
  - apply IH. exact Hp1.
  - intros [= <-]. exact Hp1.
Qed.

Lemma gettok_char_cases (st : state) :
  isspace (LastChar st) = false ->
  isalpha (LastChar st) = false ->
  isdigit (LastChar st) || (LastChar st =? 46) = false ->
  (LastChar st =? 35) = false ->
  fst (gettok_char st) = tok_eof
  \/ (punctuation (fst (gettok_char st))
      /\ fst (gettok_char st) = LastChar st).
Proof.
  intros Hs Ha Hd Hc. unfold gettok_char.
  destruct (Z.eqb_spec (LastChar st) EOF) as [E|E]; simpl; [left; reflexivity|].
  right. apply orb_false_iff in Hd as [Hd1 Hd2].
  unfold punctuation. repeat split; auto; lia.
Qed.

(** The seven kinds of result of [gettok]. *)
Lemma gettok_cases (src : source_file) (n : nat) :
  forall st t st',
    gettok src n st = Some (t, st') ->
    t = 59 \/ t = tok_def \/ t = tok_extern
    \/ (t = tok_identifier /\ is_identifier (IdentifierStr st') = true)
    \/ t = tok_number \/ t = tok_eof
    \/ punctuation t.
Proof.
  induction n as [|n IH]; intros st t st'; cbn [gettok]; [discriminate|].
  destruct (newline_is_semicolon src && (LastChar st =? 10)).
  { intros [= <- <-]. auto. }
  destruct (skip_space n st) as [st1|] eqn:Hskip; [|discriminate].
  apply skip_space_not_space in Hskip.
  destruct (isalpha (LastChar st1)) eqn:Ha.
  { destruct (read_identifier n _) as [st2|] eqn:Hid; [|discriminate].
    apply read_identifier_is_identifier in Hid;
      [|cbn [IdentifierStr set_IdentifierStr];
        apply is_identifier_char; assumption].
    destruct (String.eqb (IdentifierStr st2) "def"); [intros [= <- <-]; auto|].
    destruct (String.eqb (IdentifierStr st2) "extern");
      intros [= <- <-]; auto 6. }
  destruct (isdigit (LastChar st1) || (LastChar st1 =? 46)) eqn:Hd.
  { destruct (read_number n "" st1) as [[NumStr st2]|]; [|discriminate].
    intros [= <- <-]. auto 6. }
  destruct (LastChar st1 =? 35) eqn:Hc.
  { destruct (skip_comment n st1) as [st2|] eqn:Hcom; [|discriminate].
    destruct (Z.eqb_spec (LastChar st2) EOF) as [E|E]; cbn [negb].
    - unfold gettok_char. rewrite E. cbn. intros [= <- <-]. auto 7.
    - apply IH. }
  intros H.
  destruct (gettok_char_cases st1 Hskip Ha Hd Hc) as [E|[E1 E2]];
    destruct (gettok_char st1) as [t1 st2]; simpl in *;
    injection H as <- <-; auto 8.
Qed.

(** On input below 128 [gettok] never returns [tok_eof], and the text of an
    identifier token is an identifier that is not a keyword. *)
Lemma gettok_plain (src : source_file) (n : nat) :
  forall st t st',
    plain st -> gettok src n st = Some (t, st') ->
    plain st' /\ t <> tok_eof
    /\ (t = tok_identifier ->
        is_identifier (IdentifierStr st') = true
        /\ word_token (IdentifierStr st') = tok_identifier).
Proof.
  induction n as [|n IH]; intros st t st' Hp; cbn [gettok]; [discriminate|].
  destruct (newline_is_semicolon src && (LastChar st =? 10)).
  { intros [= <- <-]. split; [|split; [discriminate | discriminate]].
    destruct Hp as (_ & HB & HC).
    split; [|split]; [cbn; lia | exact HB | exact HC]. }
  destruct (skip_space n st) as [st1|] eqn:Hskip; [|discriminate].
  apply skip_space_plain in Hskip; [|exact Hp].
  destruct (isalpha (LastChar st1)) eqn:Ha.
  { destruct (read_identifier n _) as [st2|] eqn:Hid; [|discriminate].
    pose proof (read_identifier_plain _ _ _
                  (plain_set_IdentifierStr _ _ Hskip) Hid) as Hp2.
    apply read_identifier_is_identifier in Hid;
      [|cbn [IdentifierStr set_IdentifierStr];
        apply is_identifier_char; assumption].
    destruct (String.eqb (IdentifierStr st2) "def") eqn:E1;
      [intros [= <- <-];
       split; [exact Hp2 | split; [discriminate | discriminate]]|].
    destruct (String.eqb (IdentifierStr st2) "extern") eqn:E2; intros [= <- <-];
      (split; [exact Hp2 | split; [discriminate|]]); [discriminate|].
    intros _. unfold word_token. rewrite E1, E2.
    split; [exact Hid | reflexivity]. }
  destruct (isdigit (LastChar st1) || (LastChar st1 =? 46)) eqn:Hd.
  { destruct (read_number n "" st1) as [[NumStr st2]|] eqn:Hnum;
      [|discriminate].
    apply read_number_plain in Hnum; [|exact Hskip].
    intros [= <- <-].
    split; [exact Hnum | split; [discriminate | discriminate]]. }
  assert (Hchar : forall st2, plain st2 ->
            Some (gettok_char st2) = Some (t, st') ->
            plain st' /\ t <> tok_eof
            /\ (t = tok_identifier ->
                is_identifier (IdentifierStr st') = true
                /\ word_token (IdentifierStr st') = tok_identifier)).
  { intros st2 Hp2. unfold gettok_char.
    pose proof Hp2 as (HL & _).
    destruct (Z.eqb_spec (LastChar st2) EOF) as [E|E];
      [unfold EOF in E; lia|].
    intros [= <- <-]. split; [apply plain_advance'; exact Hp2|].
    unfold tok_eof, tok_identifier. split; lia. }
  destruct (LastChar st1 =? 35) eqn:Hc.
  { destruct (skip_comment n st1) as [st2|] eqn:Hcom; [|discriminate].
    apply skip_comment_plain in Hcom; [|exact Hskip].
    destruct (Z.eqb_spec (LastChar st2) EOF) as [E|E]; cbn [negb].
    - apply Hchar. exact Hcom.
    - apply IH. exact Hcom. }
  apply Hchar. exact Hskip.
Qed.

(** ** Numbers that begin with a dot *)

(** C10: a token that begins with [.] is a number token and never the
    character itself: [gettok] never returns ['.'], returns [tok_number]
    whenever it starts on a [.], and on a [.] followed by a character that is
    neither a digit nor a dot it returns [tok_number] with [NumVal] zero. *)
Theorem dot_is_a_number (src : source_file) :
  (forall n st t st', gettok src n st = Some (t, st') -> t <> 46)
  /\ (forall n st t st',
        LastChar st = 46 -> gettok src n st = Some (t, st') -> t = tok_number)
  /\ (forall n st,
        LastChar st = 46 ->
        isdigit (LastChar (advance st)) || (LastChar (advance st) =? 46) = false ->
        gettok src (S (S n)) st
        = Some (tok_number, set_NumVal 0%Q (advance st)))
  /\ (let? (t, st') := gettok src 3 (initial ".") in Some (t, NumVal st'))
     = Some (tok_number, 0%Q).
Proof.
  repeat split.
  - intros n st t st' H. apply gettok_cases in H.
    unfold punctuation, tok_def, tok_extern, tok_identifier, tok_number,
      tok_eof in H.
    intuition lia.
  - intros [|n] st t st' HL; cbn [gettok]; [discriminate|].
    rewrite HL, andb_false_r.
    rewrite skip_space_id by (rewrite HL; reflexivity).
    rewrite HL. change (isalpha 46) with false.
    change (isdigit 46 || (46 =? 46)) with true. cbv iota.
    destruct (read_number n "" st) as [[NumStr st2]|]; [|discriminate].
    intros [= <- _]. reflexivity.
  - intros n st HL Hnext. cbn [gettok].
    rewrite HL, andb_false_r.
    rewrite skip_space_id by (rewrite HL; reflexivity).
    rewrite HL. change (isalpha 46) with false.
    change (isdigit 46 || (46 =? 46)) with true. cbv iota.
    cbn [read_number]. rewrite Hnext, HL. reflexivity.
  - destruct src as [[|] sep anon]; vm_compute; reflexivity.
Qed.

Lemma dot_is_a_number_witness :
  gettok main_cpp 2 (advance (initial ". "))
  = Some (tok_number, set_NumVal 0%Q (advance (advance (initial ". ")))).
Proof.
  destruct (dot_is_a_number main_cpp) as (_ & _ & H & _).
  apply (H 0%nat (advance (initial ". "))); vm_compute; reflexivity.
Defined.

(** ** [ParseTopLevelExpr] *)

(** C8: a top-level expression that parses is wrapped in a function whose
    prototype has no parameters and the reserved name; that name (empty in
    [src/main.cpp], [__anon_expr] in the second file) is not of the form
    [[A-Za-z][A-Za-z0-9]*], while the text of every identifier token that
    [gettok] makes of input below 128 is.  (A byte 252 reads as the value
    of [tok_identifier] and is returned as such, with the text of the
    identifier before it.) *)
Theorem ParseTopLevelExpr_anonymous (src : source_file) :
  src = main_cpp \/ src = jit_cpp ->
  (forall n st E st',
     ParseExpression src n st = Some (Some E, st') ->
     ParseTopLevelExpr src n st
     = Some (Some (mkFunctionAST (mkPrototypeAST (anon_name src) []) E), st'))
  /\ (forall n st F st',
        ParseTopLevelExpr src n st = Some (Some F, st') ->
        Name (Proto F) = anon_name src /\ Args (Proto F) = []
        /\ ParseExpression src n st = Some (Some (Body F), st'))
  /\ is_identifier (anon_name src) = false
  /\ (forall n st st',
        plain st ->
        gettok src n st = Some (tok_identifier, st') ->
        is_identifier (IdentifierStr st') = true
        /\ IdentifierStr st' <> anon_name src).
Proof.
  intros Hsrc.
  assert (Hanon : is_identifier (anon_name src) = false)
    by (destruct Hsrc as [-> | ->]; reflexivity).
  repeat split.
  - intros n st E st' H. unfold ParseTopLevelExpr. rewrite H. reflexivity.
  - unfold ParseTopLevelExpr in H.
    destruct (ParseExpression src n st) as [[[E|] st1]|]; try discriminate.
    injection H as <- <-. reflexivity.
  - unfold ParseTopLevelExpr in H.
    destruct (ParseExpression src n st) as [[[E|] st1]|]; try discriminate.
    injection H as <- <-. reflexivity.
  - unfold ParseTopLevelExpr in H.
    destruct (ParseExpression src n st) as [[[E|] st1]|]; try discriminate.
    injection H as <- <-. reflexivity.
  - exact Hanon.
  - eapply gettok_plain in H0 as (_ & _ & Hi); [|exact H].
    apply Hi. reflexivity.
  - intros Heq. eapply gettok_plain in H0 as (_ & _ & Hi); [|exact H].
    destruct (Hi eq_refl) as [Hi1 _]. congruence.
Qed.

Lemma ParseTopLevelExpr_anonymous_witness :
  (let? st := start main_cpp 10 "x" in
   let? (r, _) := ParseTopLevelExpr main_cpp 10 st in Some r)
  = Some (Some (mkFunctionAST (mkPrototypeAST "" []) (VariableExprAST "x")))
  /\ (let? (_, st') := gettok main_cpp 10 (initial "x1 ") in
      Some (is_identifier (IdentifierStr st')))
     = Some true.
Proof.
  destruct (ParseTopLevelExpr_anonymous main_cpp (or_introl eq_refl))
    as (H & _ & _ & H4).
  split.
  - destruct (start main_cpp 10 "x") as [st|] eqn:Hst; [|discriminate Hst].
    rewrite (H 10%nat st (VariableExprAST "x")
               (snd (default (None, st) (ParseExpression main_cpp 10 st)))).
    + reflexivity.
    + vm_compute in Hst. injection Hst as <-. vm_compute. reflexivity.
  - destruct (gettok main_cpp 10 (initial "x1 ")) as [[t st']|] eqn:E;
      [|vm_compute in E; discriminate E].
    assert (Et : t = tok_identifier)
      by (vm_compute in E; injection E as <- _; reflexivity).
    subst t.
    assert (Hp : plain (initial "x1 "))
      by (split; [|split]; [vm_compute; discriminate | reflexivity ..]).
    destruct (H4 10%nat (initial "x1 ") st' Hp E) as [Hi _].
    rewrite Hi. reflexivity.
Defined.

(** ** More fuel never changes a result *)

Lemma le_res_refl {A : Type} (a : option A) : le_res a a.
Proof. intros r H. exact H. Qed.

Lemma le_res_None {A : Type} (b : option A) : le_res None b.
Proof. intros r H. discriminate H. Qed.

Lemma le_res_bind {A B : Type} (a a' : option A) (k k' : A -> option B) :
  le_res a a' ->
  (forall p, le_res (k p) (k' p)) ->
  le_res (match a with Some p => k p | None => None end)
         (match a' with Some p => k' p | None => None end).
Proof.
  intros Ha Hk r. destruct a as [p|]; [|discriminate].
  rewrite (Ha p eq_refl). apply Hk.
Qed.

Create HintDb mono.

#[local] Hint Resolve le_res_refl le_res_None : mono.

(** Splits a goal [le_res _ _] along the binds, conditionals and pairs of
    the two sides, which have the same shape. *)
Ltac mono_step :=
  match goal with
  | |- le_res ?a ?a => apply le_res_refl
  | |- le_res None _ => apply le_res_None
  | |- le_res (match ?a with Some _ => _ | None => None end)
              (match ?b with Some _ => _ | None => None end) =>
      apply le_res_bind; [|intros ?]
  | |- le_res (if ?b then _ else _) _ => destruct b eqn:?
  | |- le_res (let (_, _) := ?p in _) _ => destruct p eqn:?
  | |- le_res (match ?p with None => _ | Some _ => _ end) _ =>
      destruct p eqn:?
  end.

Ltac mono := repeat (mono_step; cbn beta iota); eauto with mono lia.

Lemma skip_space_mono (n : nat) :
  forall m st, (n <= m)%nat -> le_res (skip_space n st) (skip_space m st).
Proof.
  induction n as [|n IH]; intros [|m] st Hle; cbn [skip_space];
    try (destruct (isspace (LastChar st)); auto with mono; fail).
  - lia.
  - destruct (isspace (LastChar st)); auto with mono. apply IH. lia.
Qed.

Lemma read_identifier_mono (n : nat) :
  forall m st, (n <= m)%nat ->
    le_res (read_identifier n st) (read_identifier m st).
Proof.
  induction n as [|n IH]; intros [|m] st Hle; cbn [read_identifier];
    auto with mono; [lia|].
  destruct (isalnum (LastChar (advance st))); auto with mono.
  apply IH. lia.
Qed.

Lemma read_number_mono (n : nat) :
  forall m s st, (n <= m)%nat ->
    le_res (read_number n s st) (read_number m s st).
Proof.
  induction n as [|n IH]; intros [|m] s st Hle; cbn [read_number];
    auto with mono; [lia|].
  destruct (isdigit (LastChar (advance st)) || (LastChar (advance st) =? 46));
    auto with mono.
  apply IH. lia.
Qed.

Lemma skip_comment_mono (n : nat) :
  forall m st, (n <= m)%nat -> le_res (skip_comment n st) (skip_comment m st).
Proof.
  induction n as [|n IH]; intros [|m] st Hle; cbn [skip_comment];
    auto with mono; [lia|].
  destruct (negb (LastChar (advance st) =? EOF)
            && negb (LastChar (advance st) =? 10)
            && negb (LastChar (advance st) =? 13)); auto with mono.
  apply IH. lia.
Qed.

Lemma gettok_mono (src : source_file) (n : nat) :
  forall m st, (n <= m)%nat -> le_res (gettok src n st) (gettok src m st).
Proof.
  induction n as [|n IH]; intros [|m] st Hle; cbn [gettok];
    auto with mono; [lia|].
  assert (Hle' : (n <= m)%nat) by lia.
  destruct (newline_is_semicolon src && (LastChar st =? 10));
    [apply le_res_refl|].
  apply le_res_bind; [apply skip_space_mono; assumption|]. intros st1.
  destruct (isalpha (LastChar st1)).
  { apply le_res_bind; [apply read_identifier_mono; assumption|].
    intros st2. apply le_res_refl. }
  destruct (isdigit (LastChar st1) || (LastChar st1 =? 46)).
  { apply le_res_bind; [apply read_number_mono; assumption|].
    intros p. apply le_res_refl. }
  destruct (LastChar st1 =? 35); [|apply le_res_refl].
  apply le_res_bind; [apply skip_comment_mono; assumption|].
  intros st2. destruct (negb (LastChar st2 =? EOF)); [|apply le_res_refl].
  apply IH. assumption.
Qed.

Lemma getNextToken_mono (src : source_file) (n m : nat) (st : state) :
  (n <= m)%nat -> le_res (getNextToken src n st) (getNextToken src m st).
Proof.
  intros Hle. unfold getNextToken.
  apply le_res_bind; [apply gettok_mono; assumption|].
  intros p. apply le_res_refl.
Qed.

#[local] Hint Resolve getNextToken_mono : mono.

Lemma ParseNumberExpr_mono (src : source_file) (n m : nat) (st : state) :
  (n <= m)%nat -> le_res (ParseNumberExpr src n st) (ParseNumberExpr src m st).
Proof. intros Hle. unfold ParseNumberExpr. mono. Qed.

#[local] Hint Resolve ParseNumberExpr_mono : mono.

Lemma parser_mono (src : source_file) (n : nat) :
  forall m, (n <= m)%nat ->
    (forall st, le_res (ParsePrimary src n st) (ParsePrimary src m st))
    /\ (forall st, le_res (ParseParenExpr src n st) (ParseParenExpr src m st))
    /\ (forall st,
          le_res (ParseIdentifierExpr src n st) (ParseIdentifierExpr src m st))
    /\ (forall a st,
          le_res (ParseIdentifierExpr_args src n a st)
                 (ParseIdentifierExpr_args src m a st))
    /\ (forall st, le_res (ParseExpression src n st) (ParseExpression src m st))
    /\ (forall p l st,
          le_res (ParseBinOpRHS src n p l st) (ParseBinOpRHS src m p l st)).
Proof.
  induction n as [|n IH]; intros [|m] Hle; try lia.
  - repeat split; intros; apply le_res_None.
  - repeat split; intros; apply le_res_None.
  - assert (Hle' : (n <= m)%nat) by lia.
    destruct (IH m Hle') as (IH1 & IH2 & IH3 & IH4 & IH5 & IH6).
    repeat split; intros.
    + cbn [ParsePrimary]. mono.
    + cbn [ParseParenExpr]. mono.
    + cbn [ParseIdentifierExpr]. mono.
    + cbn [ParseIdentifierExpr_args]. mono.
    + cbn [ParseExpression]. mono.
    + cbn [ParseBinOpRHS]. mono.
Qed.

Lemma ParseExpression_mono (src : source_file) (n m : nat) (st : state) :
  (n <= m)%nat -> le_res (ParseExpression src n st) (ParseExpression src m st).
Proof. intros Hle. apply (parser_mono src n m Hle). Qed.

Lemma ParsePrimary_mono (src : source_file) (n m : nat) (st : state) :
  (n <= m)%nat -> le_res (ParsePrimary src n st) (ParsePrimary src m st).
Proof. intros Hle. apply (parser_mono src n m Hle). Qed.

(** ** [ParseParenExpr] *)

Lemma CurTok_GetTokPrecedence (st : state) :
  CurTok (snd (GetTokPrecedence st)) = CurTok st.
Proof.
  destruct (GetTokPrecedence_cases st) as [[_ E]|[(_ & _ & E)|(v & _ & _ & E)]];
    rewrite E; reflexivity.
Qed.

Lemma ParseBinOpRHS_stop (src : source_file) (n : nat) (ExprPrec : Z)
    (LHS : ExprAST) (st : state) :
  fst (GetTokPrecedence st) < ExprPrec ->
  ParseBinOpRHS src (S n) ExprPrec LHS st
  = Some (Some LHS, snd (GetTokPrecedence st)).
Proof.
  intros H. cbn [ParseBinOpRHS].
  destruct (GetTokPrecedence st) as [p st1]; cbn [fst snd] in *.
  destruct (Z.ltb_spec p ExprPrec); [reflexivity | lia].
Qed.

Lemma ParseParenExpr_inner (src : source_file) (n : nat)
    (st st1 st2 st3 : state) (t1 t3 : Z) (V : ExprAST) :
  getNextToken src n st = Some (t1, st1) ->
  ParseExpression src n st1 = Some (Some V, st2) ->
  CurTok st2 = 41 ->
  getNextToken src n st2 = Some (t3, st3) ->
  ParseParenExpr src (S n) st = Some (Some V, st3).
Proof.
  intros H1 H2 H3 H4. cbn [ParseParenExpr].
  rewrite H1, H2, H3, H4. reflexivity.
Qed.

(** C5: [ParseParenExpr] returns the expression between the parentheses
    as it is: when the tokens after [(] parse as [V] up to a [)],
    [ParseParenExpr] returns [V]; the same holds through two pairs of
    parentheses (with [)] not registered as an operator); and [(1+2)*3] and
    [((1+2))*3] give one and the same AST. *)
Theorem ParseParenExpr_transparent (src : source_file) :
  (forall n st t1 st1 V st2 t3 st3,
     getNextToken src n st = Some (t1, st1) ->
     ParseExpression src n st1 = Some (Some V, st2) ->
     CurTok st2 = 41 ->
     getNextToken src n st2 = Some (t3, st3) ->
     ParseParenExpr src (S n) st = Some (Some V, st3))
  /\ (forall n st t1 st1 t2 st2 V st3 t4 st4 t5 st5,
        getNextToken src n st = Some (t1, st1) ->
        CurTok st1 = 40 ->
        getNextToken src n st1 = Some (t2, st2) ->
        ParseExpression src n st2 = Some (Some V, st3) ->
        CurTok st3 = 41 ->
        getNextToken src n st3 = Some (t4, st4) ->
        CurTok st4 = 41 ->
        fst (GetTokPrecedence st4) = -1 ->
        getNextToken src n (snd (GetTokPrecedence st4)) = Some (t5, st5) ->
        ParseParenExpr src (n + 4) st = Some (Some V, st5))
  /\ (let? st := start main_cpp 20 "(1+2)*3" in
      let? (r, _) := ParseExpression main_cpp 20 st in Some r)
     = Some (Some (BinaryExprAST "*"
                     (BinaryExprAST "+" (NumberExprAST 1) (NumberExprAST 2))
                     (NumberExprAST 3)))
  /\ (let? st := start main_cpp 20 "((1+2))*3" in
      let? (r, _) := ParseExpression main_cpp 20 st in Some r)
     = (let? st := start main_cpp 20 "(1+2)*3" in
        let? (r, _) := ParseExpression main_cpp 20 st in Some r).
Proof.
  split; [|split; [|split]].
  - intros. eapply ParseParenExpr_inner; eassumption.
  - intros n st t1 st1 t2 st2 V st3 t4 st4 t5 st5 H1 C1 H2 H3 C3 H4 C4 HP H5.
    replace (n + 4)%nat with (S (S (S (S n)))) by lia.
    assert (Hin : ParseParenExpr src (S n) st1 = Some (Some V, st4))
      by (eapply ParseParenExpr_inner; eassumption).
    assert (Hprim : ParsePrimary src (S (S n)) st1 = Some (Some V, st4)).
    { cbn [ParsePrimary]. rewrite C1. exact Hin. }
    assert (Hexp : ParseExpression src (S (S (S n))) st1
                   = Some (Some V, snd (GetTokPrecedence st4))).
    { cbn [ParseExpression]. rewrite Hprim.
      apply ParseBinOpRHS_stop. lia. }
    eapply ParseParenExpr_inner.
    + eapply getNextToken_mono; [|exact H1]. lia.
    + exact Hexp.
    + rewrite CurTok_GetTokPrecedence. exact C4.
    + eapply getNextToken_mono; [|exact H5]. lia.
  - vm_compute. reflexivity.
  - vm_compute. reflexivity.
Qed.

Lemma ParseParenExpr_transparent_witness :
  (let? st := start jit_cpp 20 "(x);" in
   let? (r, _) := ParseParenExpr jit_cpp 20 st in Some r)
  = Some (Some (VariableExprAST "x")).
Proof.
  destruct (ParseParenExpr_transparent jit_cpp) as (H & _).
  destruct (start jit_cpp 20 "(x);") as [st|] eqn:Hst; [|discriminate Hst].
  vm_compute in Hst. injection Hst as <-.
  erewrite (H 19%nat).
  - reflexivity.
  - vm_compute. reflexivity.
  - vm_compute. reflexivity.
  - vm_compute. reflexivity.
  - vm_compute. reflexivity.
Defined.

(** ** [ParsePrototype] *)

Lemma ParsePrototype_args_identifier (src : source_file) (n : nat)
    (ArgNames : list string) (st st1 : state) :
  getNextToken src n st = Some (tok_identifier, st1) ->
  ParsePrototype_args src (S n) ArgNames st
  = ParsePrototype_args src n (ArgNames ++ [IdentifierStr st1])%list st1.
Proof. intros H. cbn [ParsePrototype_args]. rewrite H. reflexivity. Qed.

Lemma ParsePrototype_args_end (src : source_file) (n : nat)
    (ArgNames : list string) (st st1 : state) (t : Z) :
  getNextToken src n st = Some (t, st1) ->
  t <> tok_identifier ->
  ParsePrototype_args src (S n) ArgNames st = Some (ArgNames, st1).
Proof.
  intros H Ht. cbn [ParsePrototype_args]. rewrite H.
  destruct (Z.eqb_spec t tok_identifier); [contradiction | reflexivity].
Qed.

(** C6: [ParsePrototype] wants an identifier, then [(], then takes
    identifiers as parameter names for as long as the next token is one,
    then wants [)]; the three failures write "expected function name",
    "expected '('" and "expected ')'"; [def foo(a b) a+b] parses as the
    function [foo] of [a] and [b] with body [a+b], and a comma between the
    parameters ends the list and fails on the missing [)]. *)
Theorem ParsePrototype_grammar (src : source_file) :
  (forall n st,
     CurTok st <> tok_identifier ->
     ParsePrototype src n st
     = Some (None, LogError "expected function name" st))
  /\ (forall n st t1 st1,
        CurTok st = tok_identifier ->
        getNextToken src n st = Some (t1, st1) ->
        CurTok st1 <> 40 ->
        ParsePrototype src n st = Some (None, LogError "expected '('" st1))
  /\ (forall n st t1 st1 ArgNames st2,
        CurTok st = tok_identifier ->
        getNextToken src n st = Some (t1, st1) ->
        CurTok st1 = 40 ->
        ParsePrototype_args src n [] st1 = Some (ArgNames, st2) ->
        CurTok st2 <> 41 ->
        ParsePrototype src n st = Some (None, LogError "expected ')'" st2))
  /\ (forall n st t1 st1 ArgNames st2 t3 st3,
        CurTok st = tok_identifier ->
        getNextToken src n st = Some (t1, st1) ->
        CurTok st1 = 40 ->
        ParsePrototype_args src n [] st1 = Some (ArgNames, st2) ->
        CurTok st2 = 41 ->
        getNextToken src n st2 = Some (t3, st3) ->
        ParsePrototype src n st
        = Some (Some (mkPrototypeAST (IdentifierStr st) ArgNames), st3))
  /\ (forall n ArgNames st st1,
        getNextToken src n st = Some (tok_identifier, st1) ->
        ParsePrototype_args src (S n) ArgNames st
        = ParsePrototype_args src n (ArgNames ++ [IdentifierStr st1])%list st1)
  /\ (forall n ArgNames st t st1,
        getNextToken src n st = Some (t, st1) ->
        t <> tok_identifier ->
        ParsePrototype_args src (S n) ArgNames st = Some (ArgNames, st1))
  /\ (let? st := start main_cpp 30 "def foo(a b) a+b" in
      let? (r, st') := ParseDefinition main_cpp 30 st in Some (r, errs st'))
     = Some (Some (mkFunctionAST
                     (mkPrototypeAST "foo" ["a"; "b"])
                     (BinaryExprAST "+" (VariableExprAST "a")
                                        (VariableExprAST "b"))),
             [])
  /\ (let? st := start main_cpp 30 "def foo(a, b) a+b" in
      let? (r, st') := ParseDefinition main_cpp 30 st in
      Some (r, CurTok st', errs st'))
     = Some (None, 44, ["expected ')'"]).
Proof.
  repeat apply conj.
  - intros n st H. unfold ParsePrototype.
    destruct (Z.eqb_spec (CurTok st) tok_identifier); [contradiction|].
    reflexivity.
  - intros n st t1 st1 H0 H1 H2. unfold ParsePrototype.
    rewrite H0, H1. cbn [negb Z.eqb tok_identifier Pos.eqb].
    destruct (Z.eqb_spec (CurTok st1) 40); [contradiction | reflexivity].
  - intros n st t1 st1 ArgNames st2 H0 H1 H2 H3 H4. unfold ParsePrototype.
    rewrite H0, H1, H2, H3. cbn [negb Z.eqb tok_identifier Pos.eqb].
    destruct (Z.eqb_spec (CurTok st2) 41); [contradiction | reflexivity].
  - intros n st t1 st1 ArgNames st2 t3 st3 H0 H1 H2 H3 H4 H5.
    unfold ParsePrototype.
    rewrite H0, H1, H2, H3, H4, H5. reflexivity.
  - intros. apply ParsePrototype_args_identifier. assumption.
  - intros. eapply ParsePrototype_args_end; eassumption.
  - vm_compute. reflexivity.
  - vm_compute. reflexivity.
Qed.

Lemma ParsePrototype_grammar_witness :
  (let? st := start jit_cpp 10 "1" in
   let? (r, st') := ParsePrototype jit_cpp 10 st in Some (r, errs st'))
  = Some (None, ["expected function name"]).
Proof.
  destruct (ParsePrototype_grammar jit_cpp) as (H & _).
  destruct (start jit_cpp 10 "1") as [st|] eqn:Hst; [|discriminate Hst].
  vm_compute in Hst. injection Hst as <-.
  rewrite (H 10%nat).
  - reflexivity.
  - vm_compute. discriminate.
Defined.

(** ** Call arguments *)

(** One turn of the argument loop, after the argument has parsed. *)
Lemma ParseIdentifierExpr_args_turn (src : source_file) (n : nat)
    (Args : list ExprAST) (st st1 : state) (Arg : ExprAST) :
  ParseExpression src n st = Some (Some Arg, st1) ->
  (CurTok st1 = 41 ->
   ParseIdentifierExpr_args src (S n) Args st
   = Some (Some (Args ++ [Arg])%list, st1))
  /\ (CurTok st1 <> 41 -> CurTok st1 <> arg_separator src ->
      ParseIdentifierExpr_args src (S n) Args st
      = Some (None, LogError "expected ')' or ',' in argument list" st1))
  /\ (CurTok st1 <> 41 -> CurTok st1 = arg_separator src ->
      forall t st2,
        getNextToken src n st1 = Some (t, st2) ->
        ParseIdentifierExpr_args src (S n) Args st
        = ParseIdentifierExpr_args src n (Args ++ [Arg])%list st2).
Proof.
  intros H. cbn [ParseIdentifierExpr_args]. rewrite H.
  repeat split.
  - intros E. rewrite E. reflexivity.
  - intros E1 E2. apply Z.eqb_neq in E1, E2. rewrite E1, E2. reflexivity.
  - intros E1 E2 t st2 H2. apply Z.eqb_neq in E1. apply Z.eqb_eq in E2.
    rewrite E1, E2, H2. reflexivity.
Qed.

(** C2, at the input [f(1,2)] of [src/main.cpp]: the token after the first
    argument is [,] (44), which the source compares with ['.']; the call is
    rejected with "expected ')' or ',' in argument list".  An empty list and
    a single argument parse. *)
Theorem ParseIdentifierExpr_main_cpp_rejects_comma :
  (let? st := start main_cpp 20 "f(1,2)" in
   let? (r, st') := ParseIdentifierExpr main_cpp 20 st in
   Some (r, CurTok st', errs st'))
  = Some (None, 44, ["expected ')' or ',' in argument list"])
  /\ (let? st := start main_cpp 20 "f()" in
      let? (r, st') := ParseIdentifierExpr main_cpp 20 st in
      Some (r, errs st'))
     = Some (Some (CallExprAST "f" []), [])
  /\ (let? st := start main_cpp 20 "f(1)" in
      let? (r, st') := ParseIdentifierExpr main_cpp 20 st in
      Some (r, errs st'))
     = Some (Some (CallExprAST "f" [NumberExprAST 1]), []).
Proof. repeat split; vm_compute; reflexivity. Qed.

(** The second source file compares with [','] and does what C2 says:
    [f()] and [f(1,2)] parse, [f(1,2,)] fails on the [)] after the comma,
    and a token that is neither [)] nor [,] after an argument fails with the
    message of the argument list. *)
Lemma ParseIdentifierExpr_jit_cpp_arguments :
  (let? st := start jit_cpp 20 "f();" in
   let? (r, st') := ParseIdentifierExpr jit_cpp 20 st in Some (r, errs st'))
  = Some (Some (CallExprAST "f" []), [])
  /\ (let? st := start jit_cpp 20 "f(1,2);" in
      let? (r, st') := ParseIdentifierExpr jit_cpp 20 st in
      Some (r, errs st'))
     = Some (Some (CallExprAST "f" [NumberExprAST 1; NumberExprAST 2]), [])
  /\ (let? st := start jit_cpp 20 "f(1,2,);" in
      let? (r, st') := ParseIdentifierExpr jit_cpp 20 st in
      Some (r, CurTok st', errs st'))
     = Some (None, 41, ["unknown token"])
  /\ (let? st := start jit_cpp 20 "f(1;2);" in
      let? (r, st') := ParseIdentifierExpr jit_cpp 20 st in
      Some (r, CurTok st', errs st'))
     = Some (None, 59, ["expected ')' or ',' in argument list"]).
Proof. repeat split; vm_compute; reflexivity. Qed.

(** In [src/main.cpp] no token that [gettok] returns passes the comparison
    with ['.']: after an argument every token but [)] is rejected. *)
Lemma main_cpp_separator_never_read (n : nat) (st st' : state) (t : Z) :
  gettok main_cpp n st = Some (t, st') -> t <> arg_separator main_cpp.
Proof.
  intros H. apply gettok_cases in H.
  unfold punctuation, tok_def, tok_extern, tok_identifier, tok_number,
    tok_eof in H.
  cbn [arg_separator main_cpp]. intuition lia.
Qed.

(** ** Precedence and associativity *)

(** C1, at the input [1-2*3-4]: after absorbing [2*3] as the right operand
    of the first [-], [ParseBinOpRHS] goes on at the precedence of that [-]
    and takes the second [-] too, so the result is [1-((2*3)-4)] and not
    [(1-(2*3))-4].  The three expressions the specification lists parse as
    it says. *)
Theorem ParseBinOpRHS_equal_precedence_after_higher :
  (let? st := start main_cpp 30 "1-2*3-4" in
   let? (r, _) := ParseExpression main_cpp 30 st in Some r)
  = Some (Some (BinaryExprAST "-" (NumberExprAST 1)
                  (BinaryExprAST "-"
                     (BinaryExprAST "*" (NumberExprAST 2) (NumberExprAST 3))
                     (NumberExprAST 4))))
  /\ (let? st := start main_cpp 30 "1-2*3-4" in
      let? (r, _) := ParseExpression main_cpp 30 st in Some r)
     <> Some (Some (BinaryExprAST "-"
                      (BinaryExprAST "-" (NumberExprAST 1)
                         (BinaryExprAST "*" (NumberExprAST 2)
                                            (NumberExprAST 3)))
                      (NumberExprAST 4)))
  /\ (let? st := start main_cpp 30 "1+2*3" in
      let? (r, _) := ParseExpression main_cpp 30 st in Some r)
     = Some (Some (BinaryExprAST "+" (NumberExprAST 1)
                     (BinaryExprAST "*" (NumberExprAST 2) (NumberExprAST 3))))
  /\ (let? st := start main_cpp 30 "1-2-3" in
      let? (r, _) := ParseExpression main_cpp 30 st in Some r)
     = Some (Some (BinaryExprAST "-"
                     (BinaryExprAST "-" (NumberExprAST 1) (NumberExprAST 2))
                     (NumberExprAST 3)))
  /\ (let? st := start main_cpp 30 "1<2+3" in
      let? (r, _) := ParseExpression main_cpp 30 st in Some r)
     = Some (Some (BinaryExprAST "<" (NumberExprAST 1)
                     (BinaryExprAST "+" (NumberExprAST 2) (NumberExprAST 3)))).
Proof.
  repeat apply conj; try (vm_compute; reflexivity).
  vm_compute. discriminate.
Qed.

(** With three operands the grouping follows the table for every pair of
    operators: the second operator takes the middle operand exactly when
    it binds tighter than the first. *)
Lemma three_operands_follow_the_table :
  Forall (fun o1 =>
    Forall (fun o2 =>
      (let? st := start main_cpp 30
                    (String "1" (String o1 (String "2" (String o2 "3")))) in
       let? (r, _) := ParseExpression main_cpp 30 st in Some r)
      = Some (Some
          (if default_precedence o1 <? default_precedence o2
           then BinaryExprAST o1 (NumberExprAST 1)
                  (BinaryExprAST o2 (NumberExprAST 2) (NumberExprAST 3))
           else BinaryExprAST o2
                  (BinaryExprAST o1 (NumberExprAST 1) (NumberExprAST 2))
                  (NumberExprAST 3))))
      ["<"; "+"; "-"; "*"]%char)
    ["<"; "+"; "-"; "*"]%char.
Proof. repeat constructor; vm_compute; reflexivity. Qed.

(** The second source file has the same [ParseBinOpRHS]. *)
Lemma jit_cpp_equal_precedence_after_higher :
  (let? st := start jit_cpp 30 "1-2*3-4;" in
   let? (r, _) := ParseExpression jit_cpp 30 st in Some r)
  = Some (Some (BinaryExprAST "-" (NumberExprAST 1)
                  (BinaryExprAST "-"
                     (BinaryExprAST "*" (NumberExprAST 2) (NumberExprAST 3))
                     (NumberExprAST 4)))).
Proof. vm_compute. reflexivity. Qed.

(** ** The end of the input *)

(** When [LastChar] holds [EOF], [gettok] returns [tok_eof] and keeps
    doing so. *)
Lemma gettok_at_EOF (src : source_file) (n : nat) (st : state) :
  LastChar st = EOF -> gettok src (S n) st = Some (tok_eof, st).
Proof.
  intros H. cbn [gettok]. rewrite H, andb_false_r.
  rewrite skip_space_id by (rewrite H; reflexivity).
  rewrite H. change (isalpha EOF) with false.
  change (isdigit EOF || (EOF =? 46)) with false.
  change (EOF =? 35) with false. cbv iota.
  unfold gettok_char. rewrite H. reflexivity.
Qed.

(** [MainLoop] returns only in a state whose current token is [tok_eof]. *)
Lemma MainLoop_returns_at_eof (n : nat) :
  forall st st', MainLoop n st = Some st' -> CurTok st' = tok_eof.
Proof.
  induction n as [|n IH]; intros st st'; cbn [MainLoop]; [discriminate|].
  destruct (Z.eqb_spec (CurTok st) tok_eof) as [E|_].
  { intros [= <-]. exact E. }
  destruct (CurTok st =? 59).
  { destruct (getNextToken main_cpp n st) as [[t st1]|]; [|discriminate].
    apply IH. }
  destruct (CurTok st =? tok_def).
  { destruct (HandleDefinition n st) as [st1|]; [|discriminate]. apply IH. }
  destruct (CurTok st =? tok_extern).
  { destruct (HandleExtern n st) as [st1|]; [|discriminate]. apply IH. }
  destruct (HandleTopLevelExpression n st) as [st1|]; [|discriminate].
  apply IH.
Qed.

Lemma MainLoop_at_eof (n : nat) (st : state) :
  CurTok st = tok_eof -> MainLoop (S n) st = Some st.
Proof. intros H. cbn [MainLoop]. rewrite H. reflexivity. Qed.

Lemma all_newlines_app (s : string) :
  all_newlines s -> all_newlines (s ++ String "010"%char "").
Proof.
  induction s as [|c r IH]; simpl; [auto|].
  intros [Hc Hr]. auto.
Qed.

Lemma all_newlines_get (s : string) :
  forall i, all_newlines s -> (i < String.length s)%nat ->
            String.get i s = Some "010"%char.
Proof.
  induction s as [|c r IH]; simpl; intros i Hs Hi; [lia|].
  destruct Hs as [-> Hr]. destruct i as [|i]; [reflexivity|].
  apply IH; [assumption | lia].
Qed.

Lemma length_app_newline (s : string) :
  String.length (s ++ String "010"%char "") = S (String.length s).
Proof. induction s as [|c r IH]; simpl; congruence. Qed.

Lemma drained_advance (st : state) :
  drained st -> drained (advance st) /\ LastChar (advance st) = 10.
Proof.
  intros [Hcin Hbuf]. unfold advance, getBufChar.
  destruct (String.length (Buf st) <=? Index st)%nat eqn:Hex.
  - unfold getline. destruct (cin_good st).
    + rewrite Hcin. cbn. unfold drained. cbn. repeat split; reflexivity.
    + cbn [Buf Index set_Index set_Buf].
      rewrite all_newlines_get;
        [|apply all_newlines_app; assumption | rewrite length_app_newline; lia].
      unfold drained. cbn. auto using all_newlines_app.
  - apply Nat.leb_gt in Hex.
    rewrite all_newlines_get by assumption.
    unfold drained. cbn. auto.
Qed.

Lemma skip_space_drained (n : nat) :
  forall st, drained st -> isspace (LastChar st) = true ->
             skip_space n st = None.
Proof.
  induction n as [|n IH]; intros st Hd Hs; cbn [skip_space]; rewrite Hs;
    [reflexivity|].
  destruct (drained_advance st Hd) as [Hd' HL].
  apply IH; [assumption|]. rewrite HL. reflexivity.
Qed.

(** C4, at the empty input: with standard input at its end from the start,
    [getBufChar] hands [gettok] a newline on every call and never [EOF], the
    loop that skips white space does not end, and [main] returns for no
    amount of fuel. *)
Theorem main_never_returns_on_empty_input (n : nat) : main n "" = None.
Proof.
  unfold main, getNextToken. destruct n as [|n]; [reflexivity|].
  cbn [gettok]. cbn [newline_is_semicolon main_cpp LastChar install_operators
                       set_BinopPrecedence initial andb Z.eqb].
  rewrite skip_space_drained; [reflexivity | | reflexivity].
  split; cbn; auto.
Qed.

(** The same after a complete line: once [1+2] is parsed the driver reads
    on, and does not return. *)
Lemma main_never_returns_after_a_line :
  main 1000 ("1+2" ++ String "010"%char "") = None.
Proof. vm_compute. reflexivity. Qed.

(** ** Comments and white space *)

Lemma lex_mono (src : source_file) (k : nat) :
  forall n m st, (n <= m)%nat -> le_res (lex src n k st) (lex src m k st).
Proof.
  induction k as [|k IH]; intros n m st Hle; cbn [lex]; [apply le_res_refl|].
  apply le_res_bind; [apply gettok_mono; assumption|].
  intros [t st1]. apply le_res_bind; [apply IH; assumption|].
  intros ts. apply le_res_refl.
Qed.

Lemma int_of_char_newline (c : ascii) :
  (int_of_char c =? 10) = Ascii.eqb c "010"%char.
Proof.
  destruct (Ascii.eqb_spec c "010"%char) as [-> | Hne]; [reflexivity|].
  apply Z.eqb_neq. intros H. apply Hne.
  pose proof (N_ascii_bounded c) as Hb.
  unfold int_of_char in H. cbv zeta in H.
  rewrite <- (ascii_N_embedding c).
  destruct (Z.ltb_spec (Z.of_N (N_of_ascii c)) 128); [|lia].
  replace (N_of_ascii c) with 10%N by lia. reflexivity.
Qed.

Lemma split_line_app (l rest : string) :
  no_eol l = true -> split_line (l ++ String "010"%char rest) = (l, Some rest).
Proof.
  induction l as [|c r IH]; cbn [no_eol append split_line]; [reflexivity|].
  intros H. apply andb_true_iff in H as [H Hr].
  apply andb_true_iff in H as [H _].
  apply andb_true_iff in H as [_ Hn].
  rewrite int_of_char_newline in Hn.
  destruct (Ascii.eqb c "010"%char); [discriminate|].
  rewrite (IH Hr). reflexivity.
Qed.

Lemma get_app_length (pre : string) (c : ascii) (s : string) :
  String.get (String.length pre) (pre ++ String c s) = Some c.
Proof. induction pre as [|a r IH]; simpl; auto. Qed.

Lemma get_Some_lt (s : string) :
  forall i c, String.get i s = Some c -> (i < String.length s)%nat.
Proof.
  induction s as [|a r IH]; simpl; intros i c H; [discriminate|].
  destruct i as [|i]; [lia|]. apply IH in H. lia.
Qed.

Lemma app_char_assoc (pre : string) (a : ascii) (s : string) :
  (pre ++ String a "") ++ s = pre ++ String a s.
Proof. induction pre as [|b r IH]; simpl; congruence. Qed.

Lemma length_app_char (pre : string) (a : ascii) :
  String.length (pre ++ String a "") = S (String.length pre).
Proof. induction pre as [|b r IH]; simpl; congruence. Qed.

Lemma length_app (s1 s2 : string) :
  String.length (s1 ++ s2) = (String.length s1 + String.length s2)%nat.
Proof. induction s1 as [|b r IH]; simpl; congruence. Qed.

(** [getBufChar] inside the buffer *)
Lemma advance_in_buffer (st : state) (ch : ascii) :
  String.get (Index st) (Buf st) = Some ch ->
  advance st = set_LastChar (int_of_char ch) (set_Index (S (Index st)) st).
Proof.
  intros H. unfold advance, getBufChar.
  pose proof (get_Some_lt _ _ _ H) as Hlt.
  apply Nat.leb_gt in Hlt. rewrite Hlt, H. reflexivity.
Qed.

(** [getBufChar] at the end of the buffer, with a whole line to read *)
Lemma advance_refill (st : state) (l rest : string) :
  cin_good st = true ->
  (String.length (Buf st) <= Index st)%nat ->
  split_line (cin st) = (l, Some rest) ->
  advance st
  = set_LastChar
      (int_of_char (match String.get 0 (l ++ nl) with
                    | Some c => c
                    | None => "000"%char
                    end))
      (set_Index 1 (set_Buf (l ++ nl) (set_cin rest true st))).
Proof.
  intros Hg Hex Hs. unfold advance, getBufChar, getline.
  apply Nat.leb_le in Hex. rewrite Hex, Hg, Hs. reflexivity.
Qed.

(** At the end of the buffer the next character does not depend on what
    the buffer held, as long as the stream is good. *)
Lemma advance_exhausted (st : state) (b : string) (i : nat) (z : Z) :
  cin_good st = true ->
  (String.length (Buf st) <= Index st)%nat ->
  (String.length b <= i)%nat ->
  advance (set_LastChar z (set_Index i (set_Buf b st))) = advance st.
Proof.
  intros Hg Hex Hb. unfold advance, getBufChar, getline.
  apply Nat.leb_le in Hex. apply Nat.leb_le in Hb.
  cbn [Buf Index cin cin_good set_LastChar set_Index set_Buf].
  rewrite Hex, Hb, Hg.
  destruct (split_line (cin st)) as [l [r|]]; reflexivity.
Qed.

(** Two states in which [gettok] begins by reading the same character
    give the same result. *)
Lemma gettok_same_advance (src : source_file) (st1 st2 : state) :
  isspace (LastChar st1) = true ->
  isspace (LastChar st2) = true ->
  (newline_is_semicolon src = true -> LastChar st1 <> 10 /\ LastChar st2 <> 10) ->
  advance st1 = advance st2 ->
  forall n, gettok src n st1 = gettok src n st2.
Proof.
  intros H1 H2 Hnl Hadv [|n]; [reflexivity|]. cbn [gettok].
  assert (E1 : newline_is_semicolon src && (LastChar st1 =? 10) = false).
  { destruct (newline_is_semicolon src); [|reflexivity].
    destruct (Hnl eq_refl) as [Hne _]. apply Z.eqb_neq in Hne.
    rewrite Hne. reflexivity. }
  assert (E2 : newline_is_semicolon src && (LastChar st2 =? 10) = false).
  { destruct (newline_is_semicolon src); [|reflexivity].
    destruct (Hnl eq_refl) as [_ Hne]. apply Z.eqb_neq in Hne.
    rewrite Hne. reflexivity. }
  rewrite E1, E2.
  destruct n as [|n]; cbn [skip_space]; rewrite H1, H2; [reflexivity|].
  rewrite Hadv. reflexivity.
Qed.

(** Equality of two states written with the setters. *)
Ltac state_eq :=
  unfold comment_read, set_LastChar, set_IdentifierStr, set_NumVal,
    set_CurTok, set_BinopPrecedence, set_errs, set_Index, set_Buf, set_cin;
  cbn [cin cin_good Buf Index LastChar IdentifierStr NumVal CurTok
       BinopPrecedence errs String.length];
  repeat first [reflexivity | lia | progress f_equal].

Lemma skip_comment_S (n : nat) (st : state) :
  skip_comment (S n) st
  = if negb (LastChar (advance st) =? EOF)
       && negb (LastChar (advance st) =? 10)
       && negb (LastChar (advance st) =? 13)
    then skip_comment n (advance st)
    else Some (advance st).
Proof. reflexivity. Qed.

Lemma skip_comment_line (c : string) :
  forall pre st k,
    Buf st = pre ++ c ++ nl ->
    Index st = String.length pre ->
    no_eol c = true ->
    skip_comment (S (String.length c) + k) st
    = Some (set_LastChar 10
              (set_Index (String.length pre + String.length c + 1) st)).
Proof.
  induction c as [|a c IH]; intros pre st k HB HI Hc.
  - change (S (String.length "") + k)%nat with (S k).
    rewrite skip_comment_S.
    rewrite (advance_in_buffer st "010"%char)
      by (rewrite HB, HI; apply get_app_length).
    cbn [LastChar set_LastChar]. cbn.
    rewrite HI. replace (String.length pre + 0 + 1)%nat
      with (S (String.length pre)) by lia.
    reflexivity.
  - change (S (String.length (String a c)) + k)%nat
      with (S (S (String.length c) + k)).
    rewrite skip_comment_S.
    cbn [no_eol] in Hc. apply andb_true_iff in Hc as [Ha Hc].
    rewrite (advance_in_buffer st a)
      by (rewrite HB, HI; apply get_app_length).
    cbn [LastChar set_LastChar].
    rewrite Ha. cbv iota.
    rewrite (IH (pre ++ String a "") _ k); [| | |exact Hc].
    + rewrite length_app_char. state_eq.
    + cbn [Buf set_LastChar set_Index]. rewrite HB. symmetry.
      apply app_char_assoc.
    + cbn [Index set_LastChar set_Index].
      rewrite HI, length_app_char. reflexivity.
Qed.

Section CommentLine.

Variable src : source_file.
Variables (c rest : string) (st : state).

Hypothesis cin_is_good : cin_good st = true.
Hypothesis cin_has_comment : cin st = String "#"%char c ++ nl ++ rest.
Hypothesis Buf_used_up : (String.length (Buf st) <= Index st)%nat.
Hypothesis LastChar_space : isspace (LastChar st) = true.
Hypothesis LastChar_not_newline :
  newline_is_semicolon src = true -> LastChar st <> 10.
Hypothesis comment_one_line : no_eol c = true.

(** Started before the line [# c], [gettok] reads the line and calls itself
    with the line used up. *)
Lemma gettok_reads_comment (n : nat) :
  (String.length c + 2 <= n)%nat ->
  gettok src (S n) st = gettok src n (comment_read c rest st).
Proof.
  intros Hn. cbn [gettok].
  assert (E : newline_is_semicolon src && (LastChar st =? 10) = false).
  { destruct (newline_is_semicolon src); [|reflexivity].
    apply Z.eqb_neq in LastChar_not_newline; [|reflexivity].
    rewrite LastChar_not_newline. reflexivity. }
  rewrite E.
  assert (Hadv : advance st
                 = set_LastChar 35
                     (set_Index 1
                        (set_Buf (String "#"%char c ++ nl)
                                 (set_cin rest true st)))).
  { rewrite (advance_refill st (String "#"%char c) rest);
      [reflexivity | assumption | assumption |].
    rewrite cin_has_comment. unfold nl. cbn [append].
    change (String "#"%char (c ++ String "010"%char rest))
      with (String "#"%char c ++ String "010"%char rest).
    apply split_line_app. cbn [no_eol]. exact comment_one_line. }
  destruct n as [|n]; [lia|].
  cbn [skip_space]. rewrite LastChar_space, Hadv.
  rewrite skip_space_id by reflexivity.
  cbn [LastChar set_LastChar].
  change (isalpha 35) with false.
  change (isdigit 35 || (35 =? 46)) with false.
  change (35 =? 35) with true. cbv iota.
  replace (S n) with (S (String.length c) + (n - String.length c))%nat by lia.
  rewrite (skip_comment_line c (String "#"%char "") _ _); try reflexivity;
    try assumption.
  cbn [LastChar set_LastChar]. change (negb (10 =? EOF)) with true.
  cbv iota.
  replace (S (String.length c) + (n - String.length c))%nat with (S n) by lia.
  f_equal. state_eq.
Qed.

Lemma comment_read_advance (z : Z) :
  advance (set_LastChar z (comment_read c rest st))
  = advance (set_cin rest true st).
Proof.
  unfold comment_read.
  replace (set_LastChar z
             (set_LastChar 10
                (set_Index (String.length c + 2)
                   (set_Buf (String "#"%char c ++ nl) (set_cin rest true st)))))
    with (set_LastChar z
            (set_Index (String.length c + 2)
               (set_Buf (String "#"%char c ++ nl) (set_cin rest true st))))
    by reflexivity.
  apply advance_exhausted.
  - reflexivity.
  - exact Buf_used_up.
  - rewrite length_app. cbn. lia.
Qed.

End CommentLine.

Lemma lex_same_first (src : source_file) (st1 st2 : state) :
  (forall m, gettok src m st1 = gettok src m st2) ->
  forall n k, lex src n k st1 = lex src n k st2.
Proof.
  intros H n [|k]; cbn [lex]; [reflexivity|]. rewrite H. reflexivity.
Qed.

Lemma gettok_token_not_space (src : source_file) (n : nat)
    (st st' : state) (t : Z) :
  gettok src n st = Some (t, st') -> isspace t = false /\ t <> 35.
Proof.
  intros H. apply gettok_cases in H.
  destruct H as [->|[->|[->|[[-> _]|[->|[->|Hp]]]]]];
    try (split; [reflexivity | discriminate]).
  destruct Hp as (Hs & _ & _ & _ & Hc & _). auto.
Qed.




(** A byte 255 inside a comment reads as [EOF]: it ends the comment and the
    lexing with it, whatever follows. *)
Lemma comment_with_byte_255 :
  lex jit_cpp 20 2 (initial ("#" ++ String "255"%char (nl ++ "1+1;")))
  = Some [tok_eof; tok_eof].
Proof. vm_compute. reflexivity. Qed.

(** * Further properties of the lexer and the parser *)

(** ** What the lexer leaves alone *)

Lemma advance_frame (st : state) :
  CurTok (advance st) = CurTok st
  /\ BinopPrecedence (advance st) = BinopPrecedence st
  /\ errs (advance st) = errs st
  /\ NumVal (advance st) = NumVal st.
Proof.
  unfold advance, getBufChar, getline.
  destruct (String.length (Buf st) <=? Index st)%nat; [|auto].
  destruct (cin_good st); [|auto].
  destruct (split_line (cin st)) as [l [r|]]; auto.
Qed.

Lemma skip_space_frame (n : nat) :
  forall st st1,
    skip_space n st = Some st1 ->
    CurTok st1 = CurTok st /\ BinopPrecedence st1 = BinopPrecedence st
    /\ errs st1 = errs st.
Proof.
  induction n as [|n IH]; intros st st1; cbn [skip_space];
    destruct (isspace (LastChar st)); try discriminate;
    try (intros [= <-]; auto; fail).
  intros H. apply IH in H. destruct (advance_frame st) as (E1 & E2 & E3 & _).
  rewrite <- E1, <- E2, <- E3. exact H.
Qed.

Lemma read_identifier_frame (n : nat) :
  forall st st1,
    read_identifier n st = Some st1 ->
    CurTok st1 = CurTok st /\ BinopPrecedence st1 = BinopPrecedence st
    /\ errs st1 = errs st.
Proof.
  induction n as [|n IH]; intros st st1; cbn [read_identifier];
    [discriminate|].
  destruct (advance_frame st) as (E1 & E2 & E3 & _).
  destruct (isalnum (LastChar (advance st))).
  - intros H. apply IH in H. cbn in H. rewrite <- E1, <- E2, <- E3. exact H.
  - intros [= <-]. auto.
Qed.

Lemma read_number_frame (n : nat) :
  forall s st s1 st1,
    read_number n s st = Some (s1, st1) ->
    CurTok st1 = CurTok st /\ BinopPrecedence st1 = BinopPrecedence st
    /\ errs st1 = errs st.
Proof.
  induction n as [|n IH]; intros s st s1 st1; cbn [read_number];
    [discriminate|].
  destruct (advance_frame st) as (E1 & E2 & E3 & _).
  destruct (isdigit (LastChar (advance st)) || (LastChar (advance st) =? 46)).
  - intros H. apply IH in H. rewrite <- E1, <- E2, <- E3. exact H.
  - intros [= <- <-]. auto.
Qed.

Lemma skip_comment_frame (n : nat) :
  forall st st1,
    skip_comment n st = Some st1 ->
    CurTok st1 = CurTok st /\ BinopPrecedence st1 = BinopPrecedence st
    /\ errs st1 = errs st.
Proof.
  induction n as [|n IH]; intros st st1; cbn [skip_comment]; [discriminate|].
  destruct (advance_frame st) as (E1 & E2 & E3 & _).
  destruct (negb (LastChar (advance st) =? EOF)
            && negb (LastChar (advance st) =? 10)
            && negb (LastChar (advance st) =? 13)).
  - intros H. apply IH in H. rewrite <- E1, <- E2, <- E3. exact H.
  - intros [= <-]. auto.
Qed.

Lemma gettok_keeps_parser_state (src : source_file) (n : nat) :
  forall st t st',
    gettok src n st = Some (t, st') ->
    CurTok st' = CurTok st /\ BinopPrecedence st' = BinopPrecedence st
    /\ errs st' = errs st.
Proof.
  induction n as [|n IH]; intros st t st'; cbn [gettok]; [discriminate|].
  destruct (newline_is_semicolon src && (LastChar st =? 10)).
  { intros [= <- <-]. auto. }
  destruct (skip_space n st) as [st1|] eqn:Hskip; [|discriminate].
  apply skip_space_frame in Hskip as (E1 & E2 & E3).
  rewrite <- E1, <- E2, <- E3.
  destruct (isalpha (LastChar st1)).
  { destruct (read_identifier n _) as [st2|] eqn:Hid; [|discriminate].
    apply read_identifier_frame in Hid. cbn in Hid.
    destruct (String.eqb (IdentifierStr st2) "def"); [intros [= <- <-]; auto|].
    destruct (String.eqb (IdentifierStr st2) "extern");
      intros [= <- <-]; auto. }
  destruct (isdigit (LastChar st1) || (LastChar st1 =? 46)).
  { destruct (read_number n "" st1) as [[NumStr st2]|] eqn:Hnum;
      [|discriminate].
    apply read_number_frame in Hnum. intros [= <- <-]. exact Hnum. }
  assert (Hchar : forall s u s', gettok_char s = (u, s') ->
            CurTok s' = CurTok s /\ BinopPrecedence s' = BinopPrecedence s
            /\ errs s' = errs s).
  { intros s u s'. unfold gettok_char.
    destruct (LastChar s =? EOF); intros [= <- <-]; [auto|].
    destruct (advance_frame s) as (F1 & F2 & F3 & _). auto. }
  destruct (LastChar st1 =? 35).
  { destruct (skip_comment n st1) as [st2|] eqn:Hcom; [|discriminate].
    apply skip_comment_frame in Hcom as (F1 & F2 & F3).
    rewrite <- F1, <- F2, <- F3.
    destruct (negb (LastChar st2 =? EOF)); [apply IH|].
    intros [= H]. eapply Hchar. exact H. }
  intros [= H]. eapply Hchar. exact H.
Qed.

Lemma getNextToken_frame (src : source_file) (n : nat) (st st' : state)
    (t : Z) :
  getNextToken src n st = Some (t, st') ->
  CurTok st' = t /\ BinopPrecedence st' = BinopPrecedence st
  /\ errs st' = errs st.
Proof.
  unfold getNextToken.
  destruct (gettok src n st) as [[u st1]|] eqn:E; [|discriminate].
  intros [= <- <-]. apply gettok_keeps_parser_state in E as (_ & E2 & E3).
  auto.
Qed.

(** X7: [gettok] changes neither the current token, nor the operator table,
    nor what [LogError] has written: those belong to the parser; and all
    [getNextToken] adds is to make the token it returns the current one. *)
Theorem gettok_frame (src : source_file) (n : nat) (st st' : state) (t : Z) :
  (gettok src n st = Some (t, st') ->
   CurTok st' = CurTok st /\ BinopPrecedence st' = BinopPrecedence st
   /\ errs st' = errs st)
  /\ (getNextToken src n st = Some (t, st') ->
      CurTok st' = t /\ BinopPrecedence st' = BinopPrecedence st
      /\ errs st' = errs st).
Proof.
  split.
  - apply gettok_keeps_parser_state.
  - apply getNextToken_frame.
Qed.

Lemma gettok_frame_witness :
  (let? (_, st') := gettok main_cpp 9 (set_CurTok 7 (initial "x+1")) in
   Some (CurTok st'))
  = Some 7.
Proof.
  destruct (gettok main_cpp 9 (set_CurTok 7 (initial "x+1")))
    as [[t st']|] eqn:E; [|vm_compute in E; discriminate E].
  destruct (gettok_frame main_cpp 9 (set_CurTok 7 (initial "x+1")) st' t)
    as (H & _).
  destruct (H E) as (H1 & _). rewrite H1. reflexivity.
Defined.

(** ** When [gettok] returns [tok_eof] *)

Lemma gettok_tok_eof_LastChar (src : source_file) (n : nat) :
  forall st st',
    gettok src n st = Some (tok_eof, st') -> LastChar st' = EOF.
Proof.
  induction n as [|n IH]; intros st st'; cbn [gettok]; [discriminate|].
  destruct (newline_is_semicolon src && (LastChar st =? 10));
    [discriminate|].
  destruct (skip_space n st) as [st1|]; [|discriminate].
  destruct (isalpha (LastChar st1)).
  { destruct (read_identifier n _) as [st2|]; [|discriminate].
    destruct (String.eqb (IdentifierStr st2) "def"); [discriminate|].
    destruct (String.eqb (IdentifierStr st2) "extern"); discriminate. }
  destruct (isdigit (LastChar st1) || (LastChar st1 =? 46)).
  { destruct (read_number n "" st1) as [[NumStr st2]|]; discriminate. }
  assert (Hchar : forall st2, Some (gettok_char st2) = Some (tok_eof, st') ->
                              LastChar st' = EOF).
  { intros st2. unfold gettok_char.
    destruct (Z.eqb_spec (LastChar st2) EOF) as [E|E].
    - intros [= <-]. exact E.
    - intros [= H _]. contradiction. }
  destruct (LastChar st1 =? 35).
  { destruct (skip_comment n st1) as [st2|]; [|discriminate].
    destruct (negb (LastChar st2 =? EOF)); [apply IH | apply Hchar]. }
  apply Hchar.
Qed.

(** X8: [tok_eof] comes from [EOF] in [LastChar] and from nowhere else.  When
    [gettok] returns [tok_eof], [LastChar] holds [EOF], and every later call
    returns [tok_eof] again and changes nothing; with [EOF] in [LastChar]
    the call does return [tok_eof].  [getBufChar] never reports the end of
    the input, so [LastChar] becomes [EOF] only by a character whose value
    is [EOF], the byte 255: on input below 128 [gettok] never returns
    [tok_eof], whatever is read. *)
Theorem gettok_eof_only_from_EOF (src : source_file) (n : nat)
    (st st' : state) (t : Z) :
  (gettok src n st = Some (tok_eof, st') ->
   LastChar st' = EOF
   /\ forall m, gettok src (S m) st' = Some (tok_eof, st'))
  /\ (LastChar st = EOF -> gettok src (S n) st = Some (tok_eof, st))
  /\ (plain st -> gettok src n st = Some (t, st') ->
      t <> tok_eof /\ plain st').
Proof.
  split; [|split].
  - intros H. apply gettok_tok_eof_LastChar in H.
    split; [exact H|]. intros m. apply gettok_at_EOF. exact H.
  - apply gettok_at_EOF.
  - intros Hp H. destruct (gettok_plain _ _ _ _ _ Hp H) as (H1 & H2 & _).
    split; assumption.
Qed.

Lemma gettok_eof_only_from_EOF_witness :
  (let? (t, st') := gettok jit_cpp 9 (initial "a") in
   Some (negb (t =? tok_eof)))
  = Some true
  /\ (let? (t, st') := gettok jit_cpp 9 (initial (String "255"%char "b")) in
      let? (u, _) := gettok jit_cpp 9 st' in
      Some (t, u))
     = Some (tok_eof, tok_eof).
Proof.
  split.
  - destruct (gettok jit_cpp 9 (initial "a")) as [[t st']|] eqn:E;
      [|vm_compute in E; discriminate E].
    destruct (gettok_eof_only_from_EOF jit_cpp 9 (initial "a") st' t)
      as (_ & _ & H).
    assert (Hp : plain (initial "a"))
      by (split; [|split]; [vm_compute; discriminate | reflexivity ..]).
    destruct (H Hp E) as (H1 & _).
    apply Z.eqb_neq in H1. rewrite H1. reflexivity.
  - destruct (gettok jit_cpp 9 (initial (String "255"%char "b")))
      as [[t st']|] eqn:E; [|vm_compute in E; discriminate E].
    assert (Et : t = tok_eof)
      by (vm_compute in E; injection E as <- _; reflexivity).
    subst t.
    destruct (gettok_eof_only_from_EOF jit_cpp 9
                (initial (String "255"%char "b")) st' tok_eof) as (H & _).
    destruct (H E) as (_ & H2). rewrite (H2 8%nat). reflexivity.
Defined.

(** ** What a parse function leaves behind *)

Section ParserOutcome.

Variable src : source_file.

(** [A] holds as long as no parse has failed, [B] once one has. *)
Variables A B : state -> Prop.

Hypothesis A_getNextToken :
  forall n st t st', A st -> getNextToken src n st = Some (t, st') -> A st'.
Hypothesis A_GetTokPrecedence :
  forall st, A st -> A (snd (GetTokPrecedence st)).
Hypothesis B_LogError :
  forall msg st, In msg parser_messages -> A st -> B (LogError msg st).

(** Takes the equations of the context apart along the binds and tests of
    the function bodies. *)
Ltac outcome_split :=
  match goal with
  | H : None = Some _ |- _ => discriminate H
  | H : Some _ = Some _ |- _ => injection H as ? ?; subst
  | H : (_, _) = (_, _) |- _ => injection H as ? ?; subst
  | H : context [let (_, _) := ?p in _] |- _ => destruct p eqn:?
  | H : context [if ?b then _ else _] |- _ => destruct b eqn:?
  | H : context [match ?e with _ => _ end] |- _ =>
      lazymatch type of e with
      | option (option _ * state) => destruct e as [[[?|] ?]|] eqn:?
      | option (_ * _) => destruct e as [[? ?]|] eqn:?
      | _ => destruct e eqn:?
      end
  end.

(** Derives [A] or [B] for the states the equations of the context reach. *)
Ltac outcome_forward :=
  match goal with
  | HA : A ?st, E : getNextToken src _ ?st = Some (_, ?st') |- _ =>
      lazymatch goal with
      | _ : A st' |- _ => fail
      | _ => pose proof (A_getNextToken _ _ _ _ HA E)
      end
  | HA : A ?st, E : GetTokPrecedence ?st = (_, ?st') |- _ =>
      lazymatch goal with
      | _ : A st' |- _ => fail
      | _ =>
          let H := fresh in
          pose proof (A_GetTokPrecedence _ HA) as H;
          rewrite E in H; cbn [snd] in H
      end
  | HA : A ?st, E : ?f ?st = Some (Some ?V, ?st') |- _ =>
      lazymatch goal with
      | _ : A st' |- _ => fail
      | _ =>
          let H := fresh in
          assert (H : outcome A B (Some V) st') by eauto;
          cbn [outcome] in H
      end
  | HA : A ?st, E : ?f ?st = Some (@None ?T, ?st') |- _ =>
      lazymatch goal with
      | _ : B st' |- _ => fail
      | _ =>
          let H := fresh in
          assert (H : outcome A B (@None T) st') by eauto;
          cbn [outcome] in H
      end
  end.

Ltac outcome_done :=
  cbn [outcome];
  first [ assumption
        | apply B_LogError;
          [unfold parser_messages; cbn [In]; auto 10 | assumption]
        | eauto ].

Ltac outcome_tac :=
  repeat first [outcome_forward | outcome_split]; outcome_done.

Lemma parser_outcome (n : nat) :
  (forall st r st',
     A st -> ParsePrimary src n st = Some (r, st') -> outcome A B r st')
  /\ (forall st r st',
        A st -> ParseParenExpr src n st = Some (r, st') -> outcome A B r st')
  /\ (forall st r st',
        A st -> ParseIdentifierExpr src n st = Some (r, st') ->
        outcome A B r st')
  /\ (forall a st r st',
        A st -> ParseIdentifierExpr_args src n a st = Some (r, st') ->
        outcome A B r st')
  /\ (forall st r st',
        A st -> ParseExpression src n st = Some (r, st') -> outcome A B r st')
  /\ (forall p l st r st',
        A st -> ParseBinOpRHS src n p l st = Some (r, st') ->
        outcome A B r st').
Proof.
  induction n as [|n (IH1 & IH2 & IH3 & IH4 & IH5 & IH6)].
  - repeat split; intros; discriminate.
  - repeat split.
    + intros st r st' HA H. cbn [ParsePrimary] in H.
      unfold ParseNumberExpr in H. outcome_tac.
    + intros st r st' HA H. cbn [ParseParenExpr] in H. outcome_tac.
    + intros st r st' HA H. cbn [ParseIdentifierExpr] in H. outcome_tac.
    + intros a st r st' HA H. cbn [ParseIdentifierExpr_args] in H.
      outcome_tac.
    + intros st r st' HA H. cbn [ParseExpression] in H. outcome_tac.
    + intros p l st r st' HA H. cbn [ParseBinOpRHS] in H. outcome_tac.
Qed.

Lemma ParsePrototype_args_outcome (n : nat) :
  forall l st l' st',
    A st -> ParsePrototype_args src n l st = Some (l', st') -> A st'.
Proof.
  induction n as [|n IH]; intros l st l' st' HA H;
    cbn [ParsePrototype_args] in H; [discriminate|].
  repeat first [outcome_forward | outcome_split]; eauto.
Qed.

Lemma ParsePrototype_outcome (n : nat) (st st' : state)
    (r : option PrototypeAST) :
  A st -> ParsePrototype src n st = Some (r, st') -> outcome A B r st'.
Proof.
  intros HA H. unfold ParsePrototype in H.
  destruct (negb (CurTok st =? tok_identifier)).
  { injection H as <- <-. outcome_done. }
  destruct (getNextToken src n st) as [[t st1]|] eqn:E1; [|discriminate].
  assert (HA1 : A st1) by eauto.
  destruct (negb (CurTok st1 =? 40)).
  { injection H as <- <-. outcome_done. }
  destruct (ParsePrototype_args src n [] st1) as [[l st2]|] eqn:E2;
    [|discriminate].
  assert (HA2 : A st2) by (eapply ParsePrototype_args_outcome; eassumption).
  destruct (negb (CurTok st2 =? 41)).
  { injection H as <- <-. outcome_done. }
  destruct (getNextToken src n st2) as [[t3 st3]|] eqn:E3; [|discriminate].
  injection H as <- <-. cbn [outcome]. eauto.
Qed.

Lemma ParseExpression_outcome (n : nat) (st st' : state)
    (r : option ExprAST) :
  A st -> ParseExpression src n st = Some (r, st') -> outcome A B r st'.
Proof.
  intros HA H. destruct (parser_outcome n) as (_ & _ & _ & _ & H5 & _).
  eauto.
Qed.

Lemma ParseExtern_outcome (n : nat) (st st' : state)
    (r : option PrototypeAST) :
  A st -> ParseExtern src n st = Some (r, st') -> outcome A B r st'.
Proof.
  intros HA H. unfold ParseExtern in H.
  destruct (getNextToken src n st) as [[t st1]|] eqn:E; [|discriminate].
  eapply ParsePrototype_outcome; [|exact H]. eauto.
Qed.

Lemma ParseDefinition_outcome (n : nat) (st st' : state)
    (r : option FunctionAST) :
  A st -> ParseDefinition src n st = Some (r, st') -> outcome A B r st'.
Proof.
  intros HA H. unfold ParseDefinition in H.
  destruct (getNextToken src n st) as [[t st1]|] eqn:E; [|discriminate].
  assert (HA1 : A st1) by eauto.
  destruct (ParsePrototype src n st1) as [[p st2]|] eqn:E2; [|discriminate].
  pose proof (ParsePrototype_outcome _ _ _ _ HA1 E2) as Hp.
  destruct p as [P|]; cbn [outcome] in Hp.
  - destruct (ParseExpression src n st2) as [[e st3]|] eqn:E3; [|discriminate].
    pose proof (ParseExpression_outcome _ _ _ _ Hp E3) as He.
    destruct e; injection H as <- <-; exact He.
  - injection H as <- <-. exact Hp.
Qed.

Lemma ParseTopLevelExpr_outcome (n : nat) (st st' : state)
    (r : option FunctionAST) :
  A st -> ParseTopLevelExpr src n st = Some (r, st') -> outcome A B r st'.
Proof.
  intros HA H. unfold ParseTopLevelExpr in H.
  destruct (ParseExpression src n st) as [[e st3]|] eqn:E3; [|discriminate].
  pose proof (ParseExpression_outcome _ _ _ _ HA E3) as He.
  destruct e; injection H as <- <-; exact He.
Qed.

End ParserOutcome.

(** ** Messages: none on success, one on failure *)

Lemma logs_getNextToken (src : source_file) (st0 : state) (n : nat)
    (st : state) (t : Z) (st' : state) :
  logs_nothing st0 st -> getNextToken src n st = Some (t, st') ->
  logs_nothing st0 st'.
Proof.
  unfold logs_nothing. intros H E.
  apply getNextToken_frame in E as (_ & _ & E). congruence.
Qed.

Lemma errs_GetTokPrecedence (st : state) :
  errs (snd (GetTokPrecedence st)) = errs st
  /\ LastChar (snd (GetTokPrecedence st)) = LastChar st.
Proof.
  destruct (GetTokPrecedence_cases st) as [[_ E]|[(_ & _ & E)|(v & _ & _ & E)]];
    rewrite E; auto.
Qed.

Lemma logs_GetTokPrecedence (st0 st : state) :
  logs_nothing st0 st -> logs_nothing st0 (snd (GetTokPrecedence st)).
Proof.
  unfold logs_nothing. intros H.
  destruct (errs_GetTokPrecedence st) as [E _]. congruence.
Qed.

Lemma logs_LogError (st0 : state) (msg : string) (st : state) :
  In msg parser_messages -> logs_nothing st0 st ->
  logs_one_message st0 (LogError msg st).
Proof.
  unfold logs_nothing, logs_one_message. intros Hin H. exists msg.
  split; [assumption|]. cbn. rewrite H. reflexivity.
Qed.

(** X9: A parse function that returns a node has written no message; one
    that returns [nullptr] has written exactly one, and it is one of the
    five messages of the parser: a failure is reported once, where it is
    found, and not again by the callers it passes through. *)
Theorem parse_failure_logs_one_message (src : source_file) (n : nat)
    (st : state) :
  (forall r st', ParseExpression src n st = Some (r, st') ->
                 outcome (logs_nothing st) (logs_one_message st) r st')
  /\ (forall r st', ParsePrimary src n st = Some (r, st') ->
                    outcome (logs_nothing st) (logs_one_message st) r st')
  /\ (forall r st', ParsePrototype src n st = Some (r, st') ->
                    outcome (logs_nothing st) (logs_one_message st) r st')
  /\ (forall r st', ParseDefinition src n st = Some (r, st') ->
                    outcome (logs_nothing st) (logs_one_message st) r st')
  /\ (forall r st', ParseExtern src n st = Some (r, st') ->
                    outcome (logs_nothing st) (logs_one_message st) r st')
  /\ (forall r st', ParseTopLevelExpr src n st = Some (r, st') ->
                    outcome (logs_nothing st) (logs_one_message st) r st').
Proof.
  pose proof (logs_getNextToken src st) as H1.
  pose proof (logs_GetTokPrecedence st) as H2.
  pose proof (logs_LogError st) as H3.
  assert (H0 : logs_nothing st st) by reflexivity.
  repeat split; intros r st' H.
  - eapply ParseExpression_outcome; eauto.
  - destruct (parser_outcome src _ _ H1 H2 H3 n) as (HP & _). eauto.
  - eapply ParsePrototype_outcome; eauto.
  - eapply ParseDefinition_outcome; eauto.
  - eapply ParseExtern_outcome; eauto.
  - eapply ParseTopLevelExpr_outcome; eauto.
Qed.

Lemma parse_failure_logs_one_message_witness :
  (let? st := start jit_cpp 20 "f(1 2);" in
   let? (r, st') := ParseExpression jit_cpp 20 st in
   Some (r, length (errs st')))
  = Some (None, 1%nat).
Proof.
  destruct (start jit_cpp 20 "f(1 2);") as [st|] eqn:Hst;
    [|vm_compute in Hst; discriminate Hst].
  assert (He : errs st = []).
  { vm_compute in Hst. injection Hst as <-. reflexivity. }
  destruct (ParseExpression jit_cpp 20 st) as [[r st']|] eqn:E.
  - destruct (parse_failure_logs_one_message jit_cpp 20 st) as (H & _).
    specialize (H r st' E).
    assert (Hr : r = None).
    { vm_compute in Hst. injection Hst as <-. vm_compute in E.
      injection E as <- _. reflexivity. }
    subst r. cbn [outcome] in H. destruct H as (msg & _ & H).
    rewrite H, He. reflexivity.
  - vm_compute in Hst. injection Hst as <-. vm_compute in E. discriminate E.
Defined.

(** ** The operator table while parsing *)

Lemma precedence_of_GetTokPrecedence (st : state) (t : Z) :
  precedence_of t (snd (GetTokPrecedence st)) = precedence_of t st.
Proof.
  destruct (GetTokPrecedence_cases st) as [[_ E]|[(_ & Hl & E)|(v & _ & _ & E)]];
    rewrite E; cbn [snd]; try reflexivity.
  apply precedence_of_table. intros v Hv. cbn.
  destruct (decide (CurTok st = t)) as [<-|Hne].
  - rewrite lookup_insert_eq, Hl.
    split; intros HH; [injection HH; lia | discriminate].
  - rewrite lookup_insert_ne by assumption. reflexivity.
Qed.

Lemma same_precedences_getNextToken (src : source_file) (st0 : state)
    (n : nat) (st : state) (t : Z) (st' : state) :
  same_precedences st0 st -> getNextToken src n st = Some (t, st') ->
  same_precedences st0 st'.
Proof.
  unfold same_precedences. intros H E u.
  apply getNextToken_frame in E as (_ & E & _).
  rewrite <- H. apply precedence_of_table. rewrite E. tauto.
Qed.

Lemma same_precedences_GetTokPrecedence (st0 st : state) :
  same_precedences st0 st ->
  same_precedences st0 (snd (GetTokPrecedence st)).
Proof.
  unfold same_precedences. intros H u.
  rewrite precedence_of_GetTokPrecedence. apply H.
Qed.

Lemma same_precedences_LogError (st0 : state) (msg : string) (st : state) :
  In msg parser_messages -> same_precedences st0 st ->
  same_precedences st0 (LogError msg st).
Proof.
  unfold same_precedences. intros _ H u. rewrite <- H.
  apply precedence_of_table. cbn. tauto.
Qed.

Lemma outcome_same (T : Type) (A : state -> Prop) (r : option T)
    (st : state) :
  outcome A A r st -> A st.
Proof. destruct r; auto. Qed.

(** The parser functions of [src] keep the precedences of [st0]. *)
Lemma parser_same_precedences (src : source_file) (st0 : state) (n : nat) :
  (forall st r st', same_precedences st0 st ->
     ParsePrimary src n st = Some (r, st') -> same_precedences st0 st')
  /\ (forall st r st', same_precedences st0 st ->
        ParseParenExpr src n st = Some (r, st') -> same_precedences st0 st')
  /\ (forall st r st', same_precedences st0 st ->
        ParseIdentifierExpr src n st = Some (r, st') ->
        same_precedences st0 st')
  /\ (forall a st r st', same_precedences st0 st ->
        ParseIdentifierExpr_args src n a st = Some (r, st') ->
        same_precedences st0 st')
  /\ (forall st r st', same_precedences st0 st ->
        ParseExpression src n st = Some (r, st') -> same_precedences st0 st')
  /\ (forall p l st r st', same_precedences st0 st ->
        ParseBinOpRHS src n p l st = Some (r, st') ->
        same_precedences st0 st').
Proof.
  destruct (parser_outcome src _ _
              (same_precedences_getNextToken src st0)
              (same_precedences_GetTokPrecedence st0)
              (same_precedences_LogError st0) n)
    as (H1 & H2 & H3 & H4 & H5 & H6).
  repeat split; intros; eapply outcome_same; eauto.
Qed.

(** X10: Parsing changes the precedence of no token, whether the parse succeeds
    or fails: the entries [GetTokPrecedence] adds to the table on the way
    are the zero entries of tokens that are not operators. *)
Theorem parsing_keeps_precedences (src : source_file) (n : nat) (st : state) :
  (forall r st', ParseExpression src n st = Some (r, st') ->
                 same_precedences st st')
  /\ (forall r st', ParsePrototype src n st = Some (r, st') ->
                    same_precedences st st')
  /\ (forall r st', ParseDefinition src n st = Some (r, st') ->
                    same_precedences st st')
  /\ (forall r st', ParseExtern src n st = Some (r, st') ->
                    same_precedences st st')
  /\ (forall r st', ParseTopLevelExpr src n st = Some (r, st') ->
                    same_precedences st st').
Proof.
  pose proof (same_precedences_getNextToken src st) as H1.
  pose proof (same_precedences_GetTokPrecedence st) as H2.
  pose proof (same_precedences_LogError st) as H3.
  assert (H0 : same_precedences st st) by (intros t; reflexivity).
  repeat split; intros r st' H; eapply outcome_same.
  - eapply ParseExpression_outcome; eauto.
  - eapply ParsePrototype_outcome; eauto.
  - eapply ParseDefinition_outcome; eauto.
  - eapply ParseExtern_outcome; eauto.
  - eapply ParseTopLevelExpr_outcome; eauto.
Qed.

Lemma parsing_keeps_precedences_witness :
  (let? st := start main_cpp 20 "a+b" in
   let? (_, st') := ParseExpression main_cpp 20 st in
   Some (precedence_of 43 st' - precedence_of 43 st))
  = Some 0.
Proof.
  destruct (start main_cpp 20 "a+b") as [st|] eqn:Hst;
    [|vm_compute in Hst; discriminate Hst].
  destruct (ParseExpression main_cpp 20 st) as [[r st']|] eqn:E.
  - destruct (parsing_keeps_precedences main_cpp 20 st) as (H & _).
    rewrite (H r st' E 43). f_equal. lia.
  - vm_compute in Hst. injection Hst as <-. vm_compute in E. discriminate E.
Defined.

(** ** The driver never sees the end of the input *)

Lemma alive_getNextToken (src : source_file) (n : nat) (st : state) (t : Z)
    (st' : state) :
  alive st -> getNextToken src n st = Some (t, st') -> alive st'.
Proof.
  unfold alive, getNextToken. intros [_ HL] H.
  destruct (gettok src n st) as [[u st1]|] eqn:E; [|discriminate].
  injection H as <- <-.
  destruct (gettok_plain _ _ _ _ _ HL E) as (E1 & E2 & _).
  split; [exact E2 | apply plain_set_CurTok; exact E1].
Qed.

Lemma plain_GetTokPrecedence (st : state) :
  plain st -> plain (snd (GetTokPrecedence st)).
Proof.
  destruct (GetTokPrecedence_cases st) as [[_ E]|[(_ & _ & E)|(v & _ & _ & E)]];
    rewrite E; auto.
Qed.

Lemma alive_GetTokPrecedence (st : state) :
  alive st -> alive (snd (GetTokPrecedence st)).
Proof.
  unfold alive. rewrite CurTok_GetTokPrecedence.
  intros [H1 H2]. split; [exact H1 | apply plain_GetTokPrecedence; exact H2].
Qed.

Lemma alive_LogError (msg : string) (st : state) :
  In msg parser_messages -> alive st -> alive (LogError msg st).
Proof. intros _ H. exact H. Qed.

Lemma alive_Handlers (n : nat) (st st' : state) :
  alive st ->
  (HandleDefinition n st = Some st' -> alive st')
  /\ (HandleExtern n st = Some st' -> alive st')
  /\ (HandleTopLevelExpression n st = Some st' -> alive st').
Proof.
  intros HA.
  pose proof (alive_getNextToken main_cpp) as H1.
  pose proof alive_GetTokPrecedence as H2.
  pose proof alive_LogError as H3.
  split; [|split]; intros H.
  - unfold HandleDefinition in H.
    destruct (ParseDefinition main_cpp n st) as [[r st1]|] eqn:E;
      [|discriminate].
    assert (Ho : outcome alive alive r st1)
      by (eapply ParseDefinition_outcome; eauto).
    apply outcome_same in Ho. destruct r; [injection H as <-; exact Ho|].
    destruct (getNextToken main_cpp n st1) as [[t st2]|] eqn:E2;
      [|discriminate].
    injection H as <-. eauto.
  - unfold HandleExtern in H.
    destruct (ParseExtern main_cpp n st) as [[r st1]|] eqn:E;
      [|discriminate].
    assert (Ho : outcome alive alive r st1)
      by (eapply ParseExtern_outcome; eauto).
    apply outcome_same in Ho. destruct r; [injection H as <-; exact Ho|].
    destruct (getNextToken main_cpp n st1) as [[t st2]|] eqn:E2;
      [|discriminate].
    injection H as <-. eauto.
  - unfold HandleTopLevelExpression in H.
    destruct (ParseTopLevelExpr main_cpp n st) as [[r st1]|] eqn:E;
      [|discriminate].
    assert (Ho : outcome alive alive r st1)
      by (eapply ParseTopLevelExpr_outcome; eauto).
    apply outcome_same in Ho. destruct r; [injection H as <-; exact Ho|].
    destruct (getNextToken main_cpp n st1) as [[t st2]|] eqn:E2;
      [|discriminate].
    injection H as <-. eauto.
Qed.

Lemma MainLoop_alive (n : nat) :
  forall st, alive st -> MainLoop n st = None.
Proof.
  induction n as [|n IH]; intros st HA; cbn [MainLoop]; [reflexivity|].
  destruct (Z.eqb_spec (CurTok st) tok_eof) as [E|_];
    [destruct HA as [HA _]; contradiction|].
  destruct (CurTok st =? 59).
  { destruct (getNextToken main_cpp n st) as [[t st1]|] eqn:E; [|reflexivity].
    apply IH. eapply alive_getNextToken; eassumption. }
  destruct (CurTok st =? tok_def).
  { destruct (HandleDefinition n st) as [st1|] eqn:E; [|reflexivity].
    apply IH. destruct (alive_Handlers n st st1 HA) as (Hd & Hx & Ht); auto. }
  destruct (CurTok st =? tok_extern).
  { destruct (HandleExtern n st) as [st1|] eqn:E; [|reflexivity].
    apply IH. destruct (alive_Handlers n st st1 HA) as (Hd & Hx & Ht); auto. }
  destruct (HandleTopLevelExpression n st) as [st1|] eqn:E; [|reflexivity].
  apply IH. destruct (alive_Handlers n st st1 HA) as (Hd & Hx & Ht); auto.
Qed.

(** X15: On input whose bytes are all below 128, [main] of [src/main.cpp]
    does not return: [getBufChar] never reports the end of the input, no
    character read has the value [EOF], so [gettok] never returns [tok_eof],
    and [MainLoop] returns on nothing else.  (A byte 255 reads as [EOF] and
    does end the run: [main_returns_on_byte_255].) *)
Theorem main_never_returns (n : nat) (input : string) :
  seven_bit input = true -> main n input = None.
Proof.
  intros Hin. unfold main.
  destruct (getNextToken main_cpp n (install_operators (initial input)))
    as [[t st1]|] eqn:E; [|reflexivity].
  apply MainLoop_alive.
  eapply alive_getNextToken; [|exact E].
  split; [discriminate|].
  split; [|split]; [cbn; lia | reflexivity | exact Hin].
Qed.

Lemma main_never_returns_witness :
  main 60 ("def f(x) x+1" ++ nl ++ "f(2)" ++ nl) = None.
Proof. apply main_never_returns. reflexivity. Defined.

Lemma main_returns_on_byte_255 :
  main 60 ("1+2" ++ String "255"%char nl) <> None.
Proof. vm_compute. discriminate. Qed.

(** ** Where an expression ends *)

Lemma GetTokPrecedence_range (st : state) :
  fst (GetTokPrecedence st) = -1 \/ 0 < fst (GetTokPrecedence st).
Proof.
  destruct (GetTokPrecedence_cases st) as [[_ E]|[(_ & _ & E)|(v & _ & _ & E)]];
    rewrite E; cbn [fst]; auto.
  destruct (Z.leb_spec v 0); auto.
Qed.

Lemma set_CurTok_same (st : state) : set_CurTok (CurTok st) st = st.
Proof. destruct st; reflexivity. Qed.

Lemma precedence_of_CurTok (st : state) :
  precedence_of (CurTok st) st = fst (GetTokPrecedence st).
Proof. unfold precedence_of. rewrite set_CurTok_same. reflexivity. Qed.

(** Asking twice gives the same answer. *)
Lemma GetTokPrecedence_again (st : state) :
  fst (GetTokPrecedence (snd (GetTokPrecedence st)))
  = fst (GetTokPrecedence st).
Proof.
  rewrite <- !precedence_of_CurTok, CurTok_GetTokPrecedence.
  apply precedence_of_GetTokPrecedence.
Qed.

Lemma ParseBinOpRHS_ends_below (src : source_file) (n : nat) :
  forall ExprPrec LHS st E st',
    ParseBinOpRHS src n ExprPrec LHS st = Some (Some E, st') ->
    fst (GetTokPrecedence st') < ExprPrec.
Proof.
  induction n as [|n IH]; intros ExprPrec LHS st E st' H;
    cbn [ParseBinOpRHS] in H; [discriminate|].
  pose proof (GetTokPrecedence_again st) as Hagain.
  destruct (GetTokPrecedence st) as [TokPrec st1]. cbn [fst snd] in Hagain.
  destruct (Z.ltb_spec TokPrec ExprPrec).
  { injection H as <- <-. lia. }
  destruct (getNextToken src n st1) as [[t st2]|]; [|discriminate].
  destruct (ParsePrimary src n st2) as [[[RHS|] st3]|]; try discriminate.
  destruct (GetTokPrecedence st3) as [NextPrec st4].
  destruct (if TokPrec <? NextPrec
            then ParseBinOpRHS src n TokPrec RHS st4
            else Some (Some RHS, st4)) as [[[RHS'|] st5]|];
    try discriminate.
  eapply IH. exact H.
Qed.

(** X11: An expression takes every operator that follows it: when
    [ParseExpression] returns a node, the current token is not a registered
    binary operator (its precedence is -1); and [ParseBinOpRHS] called with
    the minimum [ExprPrec] stops on a token of lower precedence. *)
Theorem ParseExpression_ends_at_no_operator (src : source_file) (n : nat) :
  (forall st E st',
     ParseExpression src n st = Some (Some E, st') ->
     fst (GetTokPrecedence st') = -1)
  /\ (forall ExprPrec LHS st E st',
        ParseBinOpRHS src n ExprPrec LHS st = Some (Some E, st') ->
        fst (GetTokPrecedence st') < ExprPrec).
Proof.
  split; [|apply ParseBinOpRHS_ends_below].
  intros st E st' H. destruct n as [|n]; [discriminate|].
  cbn [ParseExpression] in H.
  destruct (ParsePrimary src n st) as [[[LHS|] st1]|]; try discriminate.
  apply ParseBinOpRHS_ends_below in H.
  destruct (GetTokPrecedence_range st'); lia.
Qed.

Lemma ParseExpression_ends_at_no_operator_witness :
  (let? st := start main_cpp 20 "a*b)+c" in
   let? (_, st') := ParseExpression main_cpp 20 st in
   Some (CurTok st', fst (GetTokPrecedence st')))
  = Some (41, -1).
Proof.
  destruct (start main_cpp 20 "a*b)+c") as [st|] eqn:Hst;
    [|vm_compute in Hst; discriminate Hst].
  vm_compute in Hst. injection Hst as <-.
  destruct (ParseExpression main_cpp 20 _) as [[[E|] st']|] eqn:HE;
    try (vm_compute in HE; discriminate HE).
  destruct (ParseExpression_ends_at_no_operator main_cpp 20) as (H & _).
  rewrite (H _ _ _ HE). vm_compute in HE. injection HE as _ <-. reflexivity.
Defined.

(** ** The operators of a parsed expression *)

Lemma operators_ok_Call (ok : ascii -> Prop) (f : string)
    (l : list ExprAST) :
  operators_ok ok (CallExprAST f l) <-> all_operators_ok ok l.
Proof.
  induction l as [|a l IH]; [reflexivity|].
  change (operators_ok ok a /\ operators_ok ok (CallExprAST f l)
          <-> operators_ok ok a /\ all_operators_ok ok l).
  tauto.
Qed.

Lemma all_operators_ok_app (ok : ascii -> Prop) (l : list ExprAST)
    (a : ExprAST) :
  all_operators_ok ok l -> operators_ok ok a ->
  all_operators_ok ok (l ++ [a])%list.
Proof.
  induction l as [|b l IH]; cbn [all_operators_ok app]; [auto|].
  intros [Hb Hl] Ha. auto.
Qed.

Lemma registered_operator (st0 st st1 : state) (TokPrec : Z) :
  same_precedences st0 st ->
  GetTokPrecedence st = (TokPrec, st1) ->
  0 <= TokPrec ->
  registered st0 (char_of_int (CurTok st1)).
Proof.
  intros Hsame E Hp. unfold registered.
  assert (E1 : CurTok st1 = CurTok st).
  { rewrite <- (CurTok_GetTokPrecedence st), E. reflexivity. }
  assert (E2 : fst (GetTokPrecedence st) = TokPrec) by (rewrite E; reflexivity).
  rewrite E1.
  assert (Hascii : isascii (CurTok st) = true).
  { destruct (isascii (CurTok st)) eqn:Ha; [reflexivity|].
    rewrite (GetTokPrecedence_not_ascii st Ha) in E2. cbn in E2. lia. }
  rewrite int_of_char_of_int by (unfold isascii in Hascii; lia).
  rewrite <- (Hsame (CurTok st)), precedence_of_CurTok, E2.
  destruct (GetTokPrecedence_range st); lia.
Qed.

Section OperatorsRegistered.

Variable src : source_file.
Variable st0 : state.

Let ok := registered st0.
Let same := same_precedences st0.

Lemma parser_operators_registered (n : nat) :
  (forall st E st', same st ->
     ParsePrimary src n st = Some (Some E, st') -> operators_ok ok E)
  /\ (forall st E st', same st ->
        ParseParenExpr src n st = Some (Some E, st') -> operators_ok ok E)
  /\ (forall st E st', same st ->
        ParseIdentifierExpr src n st = Some (Some E, st') ->
        operators_ok ok E)
  /\ (forall a st l st', same st -> all_operators_ok ok a ->
        ParseIdentifierExpr_args src n a st = Some (Some l, st') ->
        all_operators_ok ok l)
  /\ (forall st E st', same st ->
        ParseExpression src n st = Some (Some E, st') -> operators_ok ok E)
  /\ (forall p L st E st', same st -> 0 <= p -> operators_ok ok L ->
        ParseBinOpRHS src n p L st = Some (Some E, st') ->
        operators_ok ok E).
Proof.
  induction n as [|n (IH1 & IH2 & IH3 & IH4 & IH5 & IH6)].
  { repeat apply conj; intros; discriminate. }
  destruct (parser_same_precedences src st0 n)
    as (S1 & S2 & S3 & S4 & S5 & S6).
  pose proof (same_precedences_getNextToken src st0) as SG.
  pose proof (same_precedences_GetTokPrecedence st0) as SP.
  fold same in S1, S2, S3, S4, S5, S6, SG, SP.
  repeat apply conj.
  - intros st E st' HS H. cbn [ParsePrimary] in H.
    destruct (CurTok st =? tok_identifier); [eapply IH3; eassumption|].
    destruct (CurTok st =? tok_number).
    { unfold ParseNumberExpr in H.
      destruct (getNextToken src n st) as [[t st1]|]; [|discriminate].
      injection H as <- _. exact I. }
    destruct (CurTok st =? 40); [eapply IH2; eassumption | discriminate].
  - intros st E st' HS H. cbn [ParseParenExpr] in H.
    destruct (getNextToken src n st) as [[t st1]|] eqn:E1; [|discriminate].
    destruct (ParseExpression src n st1) as [[[V|] st2]|] eqn:E2;
      try discriminate.
    destruct (negb (CurTok st2 =? 41)); [discriminate|].
    destruct (getNextToken src n st2) as [[t3 st3]|]; [|discriminate].
    injection H as <- _. eapply IH5; [|exact E2]. eapply SG; eassumption.
  - intros st E st' HS H. cbn [ParseIdentifierExpr] in H.
    destruct (getNextToken src n st) as [[t st1]|] eqn:E1; [|discriminate].
    destruct (negb (CurTok st1 =? 40)).
    { injection H as <- _. exact I. }
    destruct (getNextToken src n st1) as [[t2 st2]|] eqn:E2; [|discriminate].
    destruct (negb (CurTok st2 =? 41)).
    + destruct (ParseIdentifierExpr_args src n [] st2)
        as [[[l|] st3]|] eqn:E3; try discriminate.
      destruct (getNextToken src n st3) as [[t4 st4]|]; [|discriminate].
      injection H as <- _. apply operators_ok_Call.
      eapply IH4; [| |exact E3]; [|exact I].
      eapply SG; [|exact E2]. eapply SG; eassumption.
    + destruct (getNextToken src n st2) as [[t4 st4]|]; [|discriminate].
      injection H as <- _. exact I.
  - intros a st l st' HS Ha H. cbn [ParseIdentifierExpr_args] in H.
    destruct (ParseExpression src n st) as [[[Arg|] st1]|] eqn:E1;
      try discriminate.
    assert (Hargs : all_operators_ok ok (a ++ [Arg])%list)
      by (apply all_operators_ok_app;
          [assumption | eapply IH5; eassumption]).
    destruct (CurTok st1 =? 41); [injection H as <- _; exact Hargs|].
    destruct (negb (CurTok st1 =? arg_separator src)); [discriminate|].
    destruct (getNextToken src n st1) as [[t st2]|] eqn:E2; [|discriminate].
    eapply IH4; [| |exact H]; [|exact Hargs].
    eapply SG; [|exact E2]. eapply S5; eassumption.
  - intros st E st' HS H. cbn [ParseExpression] in H.
    destruct (ParsePrimary src n st) as [[[LHS|] st1]|] eqn:E1;
      try discriminate.
    eapply IH6; [| | |exact H];
      [eapply S1; eassumption | lia | eapply IH1; eassumption].
  - intros p L st E st' HS Hp HL H. cbn [ParseBinOpRHS] in H.
    destruct (GetTokPrecedence st) as [TokPrec st1] eqn:E0.
    assert (HS1 : same st1).
    { pose proof (SP st HS) as HH. rewrite E0 in HH. exact HH. }
    destruct (Z.ltb_spec TokPrec p).
    { injection H as <- _. exact HL. }
    assert (Hop : ok (char_of_int (CurTok st1))).
    { eapply registered_operator; [exact HS | exact E0 | lia]. }
    destruct (getNextToken src n st1) as [[t st2]|] eqn:E1; [|discriminate].
    destruct (ParsePrimary src n st2) as [[[RHS|] st3]|] eqn:E2;
      try discriminate.
    assert (HS2 : same st2) by (eapply SG; eassumption).
    assert (HR : operators_ok ok RHS) by (eapply IH1; eassumption).
    assert (HS3 : same st3) by (eapply S1; eassumption).
    destruct (GetTokPrecedence st3) as [NextPrec st4] eqn:E3.
    assert (HS4 : same st4).
    { pose proof (SP st3 HS3) as HH. rewrite E3 in HH. exact HH. }
    destruct (TokPrec <? NextPrec).
    + destruct (ParseBinOpRHS src n TokPrec RHS st4)
        as [[[RHS'|] st5]|] eqn:E4; try discriminate.
      eapply IH6; [| | |exact H];
        [eapply S6; [|exact E4]; exact HS4 | exact Hp |].
      cbn [operators_ok]. repeat split; try assumption.
      eapply IH6; [| | |exact E4]; [assumption | lia | assumption].
    + eapply IH6; [| | |exact H]; [exact HS4 | exact Hp |].
      cbn [operators_ok]. auto.
Qed.

End OperatorsRegistered.

(** X12: Every operator of a binary node that [ParseExpression] builds is
    registered with a positive precedence in the table the parse began
    with: a character that is not an operator of the table never becomes
    the operator of a node. *)
Theorem parsed_operators_are_registered (src : source_file) (n : nat)
    (st st' : state) (E : ExprAST) :
  ParseExpression src n st = Some (Some E, st') ->
  operators_ok (registered st) E.
Proof.
  intros H.
  destruct (parser_operators_registered src st n) as (_ & _ & _ & _ & H5 & _).
  eapply H5; [|exact H]. intros t. reflexivity.
Qed.

Lemma parsed_operators_are_registered_witness :
  (let? st := start main_cpp 20 "a+b" in Some (0 <? precedence_of 43 st))
  = Some true.
Proof.
  destruct (start main_cpp 20 "a+b") as [st|] eqn:Hst;
    [|vm_compute in Hst; discriminate Hst].
  destruct (ParseExpression main_cpp 20 st) as [[[E|] st']|] eqn:HE.
  - pose proof (parsed_operators_are_registered _ _ _ _ _ HE) as H.
    assert (HE' : E = BinaryExprAST "+" (VariableExprAST "a")
                                        (VariableExprAST "b")).
    { vm_compute in Hst. injection Hst as <-. vm_compute in HE.
      injection HE as <- _. reflexivity. }
    subst E. cbn [operators_ok] in H. destruct H as [H _].
    unfold registered in H. change (int_of_char "+"%char) with 43 in H.
    apply Z.ltb_lt in H. rewrite H. reflexivity.
  - vm_compute in Hst. injection Hst as <-. vm_compute in HE. discriminate HE.
  - vm_compute in Hst. injection Hst as <-. vm_compute in HE. discriminate HE.
Defined.

(** ** Calls in [src/main.cpp] *)

Lemma not_dot_getNextToken (n : nat) (st : state) (t : Z) (st' : state) :
  CurTok st <> 46 -> getNextToken main_cpp n st = Some (t, st') ->
  CurTok st' <> 46.
Proof.
  intros _. unfold getNextToken.
  destruct (gettok main_cpp n st) as [[u st1]|] eqn:E; [|discriminate].
  intros [= <- <-]. cbn. eapply main_cpp_separator_never_read. exact E.
Qed.

Lemma not_dot_GetTokPrecedence (st : state) :
  CurTok st <> 46 -> CurTok (snd (GetTokPrecedence st)) <> 46.
Proof. rewrite CurTok_GetTokPrecedence. auto. Qed.

Lemma not_dot_LogError (msg : string) (st : state) :
  In msg parser_messages -> CurTok st <> 46 -> CurTok (LogError msg st) <> 46.
Proof. intros _ H. exact H. Qed.

Lemma main_cpp_one_argument (n : nat) (Args : list ExprAST) (st : state)
    (Args' : list ExprAST) (st' : state) :
  CurTok st <> 46 ->
  ParseIdentifierExpr_args main_cpp n Args st = Some (Some Args', st') ->
  exists Arg, Args' = (Args ++ [Arg])%list.
Proof.
  intros Hdot H. destruct n as [|n]; [discriminate|].
  cbn [ParseIdentifierExpr_args] in H.
  destruct (ParseExpression main_cpp n st) as [[[Arg|] st1]|] eqn:E;
    try discriminate.
  assert (Hdot1 : CurTok st1 <> 46).
  { eapply (outcome_same _ (fun s => CurTok s <> 46) (Some Arg)).
    eapply ParseExpression_outcome;
      eauto using not_dot_getNextToken, not_dot_GetTokPrecedence,
        not_dot_LogError. }
  destruct (CurTok st1 =? 41); [injection H as <- _; eauto|].
  cbn [arg_separator main_cpp] in H.
  apply Z.eqb_neq in Hdot1. rewrite Hdot1 in H. discriminate H.
Qed.

(** X13: In [src/main.cpp] a call that parses has at most one argument: after
    an argument only [)] is accepted, because the other accepted token is
    ['.'], which [gettok] never returns. *)
Theorem main_cpp_calls_have_at_most_one_argument (n : nat) (st st' : state)
    (Callee : string) (Args : list ExprAST) :
  ParseIdentifierExpr main_cpp n st
  = Some (Some (CallExprAST Callee Args), st') ->
  (length Args <= 1)%nat.
Proof.
  intros H. destruct n as [|n]; [discriminate|].
  cbn [ParseIdentifierExpr] in H.
  destruct (getNextToken main_cpp n st) as [[t st1]|]; [|discriminate].
  destruct (negb (CurTok st1 =? 40)); [discriminate|].
  destruct (getNextToken main_cpp n st1) as [[t2 st2]|] eqn:E2;
    [|discriminate].
  destruct (negb (CurTok st2 =? 41)).
  - destruct (ParseIdentifierExpr_args main_cpp n [] st2)
      as [[[l|] st3]|] eqn:E3; try discriminate.
    destruct (getNextToken main_cpp n st3) as [[t4 st4]|]; [|discriminate].
    injection H as _ <- _.
    apply main_cpp_one_argument in E3 as [Arg ->]; [cbn; lia|].
    unfold getNextToken in E2.
    destruct (gettok main_cpp n st1) as [[u s]|] eqn:E; [|discriminate].
    injection E2 as <- <-. cbn.
    eapply main_cpp_separator_never_read. exact E.
  - destruct (getNextToken main_cpp n st2) as [[t4 st4]|]; [|discriminate].
    injection H as _ <- _. cbn. lia.
Qed.

Lemma main_cpp_calls_have_at_most_one_argument_witness :
  (let? st := start main_cpp 20 "f(x)" in
   let? (r, _) := ParseIdentifierExpr main_cpp 20 st in
   match r with
   | Some (CallExprAST _ Args) => Some (length Args <=? 1)%nat
   | _ => None
   end)
  = Some true.
Proof.
  destruct (start main_cpp 20 "f(x)") as [st|] eqn:Hst;
    [|vm_compute in Hst; discriminate Hst].
  vm_compute in Hst. injection Hst as <-.
  destruct (ParseIdentifierExpr main_cpp 20 _) as [[r st']|] eqn:HE;
    [|vm_compute in HE; discriminate HE].
  destruct r as [[v|v|o l r'|Callee Args]|];
    try (vm_compute in HE; discriminate HE).
  apply main_cpp_calls_have_at_most_one_argument in HE.
  apply Nat.leb_le in HE. rewrite HE. reflexivity.
Defined.

(** ** The names in a prototype *)

Lemma getNextToken_plain (src : source_file) (n : nat) (st st' : state)
    (t : Z) :
  plain st -> getNextToken src n st = Some (t, st') -> plain st'.
Proof.
  unfold getNextToken. intros HL H.
  destruct (gettok src n st) as [[u st1]|] eqn:E; [|discriminate].
  injection H as <- <-. apply plain_set_CurTok.
  eapply gettok_plain; eassumption.
Qed.

Lemma getNextToken_identifier_is_name (src : source_file) (n : nat)
    (st st' : state) (t : Z) :
  plain st -> getNextToken src n st = Some (t, st') ->
  CurTok st' = tok_identifier -> is_name (IdentifierStr st').
Proof.
  unfold getNextToken. intros HL H.
  destruct (gettok src n st) as [[u st1]|] eqn:E; [|discriminate].
  injection H as <- <-. cbn. intros ->.
  destruct (gettok_plain _ _ _ _ _ HL E) as (_ & _ & Hi).
  apply Hi. reflexivity.
Qed.

Lemma ParsePrototype_args_names (src : source_file) (n : nat) :
  forall l st l' st',
    plain st -> Forall is_name l ->
    ParsePrototype_args src n l st = Some (l', st') ->
    Forall is_name l' /\ plain st'.
Proof.
  induction n as [|n IH]; intros l st l' st' HL Hl H;
    cbn [ParsePrototype_args] in H; [discriminate|].
  destruct (getNextToken src n st) as [[t st1]|] eqn:E; [|discriminate].
  pose proof (getNextToken_plain _ _ _ _ _ HL E) as HL1.
  destruct (Z.eqb_spec t tok_identifier) as [-> | _].
  - eapply IH; [exact HL1 | | exact H].
    apply Forall_app. split; [assumption|].
    constructor; [|constructor].
    eapply getNextToken_identifier_is_name; [exact HL | exact E |].
    apply getNextToken_frame in E as (E & _). exact E.
  - injection H as <- <-. auto.
Qed.

Lemma ParsePrototype_names (src : source_file) (n : nat)
    (st st' : state) (P : PrototypeAST) :
  plain st -> is_name (IdentifierStr st) ->
  ParsePrototype src n st = Some (Some P, st') ->
  is_name (Name P) /\ Forall is_name (Args P).
Proof.
  intros HL Hname H. unfold ParsePrototype in H.
  destruct (negb (CurTok st =? tok_identifier)); [discriminate|].
  destruct (getNextToken src n st) as [[t st1]|] eqn:E1; [|discriminate].
  destruct (negb (CurTok st1 =? 40)); [discriminate|].
  destruct (ParsePrototype_args src n [] st1) as [[l st2]|] eqn:E2;
    [|discriminate].
  destruct (negb (CurTok st2 =? 41)); [discriminate|].
  destruct (getNextToken src n st2) as [[t3 st3]|]; [|discriminate].
  injection H as <- _. cbn. split; [assumption|].
  eapply ParsePrototype_args_names; [| |exact E2]; [|constructor].
  eapply getNextToken_plain; eassumption.
Qed.

(** X14: On input below 128, the function name and the parameter names of
    a prototype that [ParseExtern] or [ParseDefinition] returns are texts of
    identifier tokens: each has the form [[A-Za-z][A-Za-z0-9]*] and none is
    [def] or [extern].  (A byte 252 reads as [tok_identifier] with the text
    of the word before it, which after [extern] is [extern] itself:
    [extern_byte_252_names_extern].) *)
Theorem prototype_names_are_identifiers (src : source_file) (n : nat)
    (st : state) :
  plain st ->
  (forall P st', ParseExtern src n st = Some (Some P, st') ->
                 is_name (Name P) /\ Forall is_name (Args P))
  /\ (forall F st', ParseDefinition src n st = Some (Some F, st') ->
                    is_name (Name (Proto F))
                    /\ Forall is_name (Args (Proto F))).
Proof.
  intros HL.
  assert (Hproto : forall st1 t P st',
             getNextToken src n st = Some (t, st1) ->
             ParsePrototype src n st1 = Some (Some P, st') ->
             is_name (Name P) /\ Forall is_name (Args P)).
  { intros st1 t P st' E1 E2.
    eapply ParsePrototype_names; [| |exact E2].
    - eapply getNextToken_plain; eassumption.
    - eapply getNextToken_identifier_is_name; [exact HL | exact E1 |].
      unfold ParsePrototype in E2.
      destruct (Z.eqb_spec (CurTok st1) tok_identifier);
        [assumption | discriminate]. }
  split.
  - intros P st' H. unfold ParseExtern in H.
    destruct (getNextToken src n st) as [[t st1]|] eqn:E1; [|discriminate].
    eauto.
  - intros F st' H. unfold ParseDefinition in H.
    destruct (getNextToken src n st) as [[t st1]|] eqn:E1; [|discriminate].
    destruct (ParsePrototype src n st1) as [[[P|] st2]|] eqn:E2;
      try discriminate.
    destruct (ParseExpression src n st2) as [[[E|] st3]|]; try discriminate.
    injection H as <- _. cbn. eauto.
Qed.

Lemma prototype_names_are_identifiers_witness :
  (let? st := start jit_cpp 20 "extern sin(x);" in
   let? (r, _) := ParseExtern jit_cpp 20 st in Some r)
  = Some (Some (mkPrototypeAST "sin" ["x"]))
  /\ is_name "sin" /\ Forall is_name ["x"].
Proof.
  split; [vm_compute; reflexivity|].
  destruct (prototype_names_are_identifiers jit_cpp 20
              (default (initial "") (start jit_cpp 20 "extern sin(x);")))
    as (H & _).
  - split; [|split]; [vm_compute; discriminate | vm_compute; reflexivity ..].
  - apply (H (mkPrototypeAST "sin" ["x"])
             (snd (default (None, initial "")
                     (ParseExtern jit_cpp 20
                        (default (initial "")
                           (start jit_cpp 20 "extern sin(x);")))))).
    vm_compute. reflexivity.
Defined.

Lemma extern_byte_252_names_extern :
  (let? st := start jit_cpp 20 ("extern " ++ String "252"%char "(x);") in
   let? (r, _) := ParseExtern jit_cpp 20 st in Some r)
  = Some (Some (mkPrototypeAST "extern" ["x"])).
Proof. vm_compute. reflexivity. Qed.

(** ** Words and numbers *)

Lemma char_of_int_of_char (c : ascii) : char_of_int (int_of_char c) = c.
Proof.
  unfold char_of_int.
  pose proof (N_ascii_bounded c) as Hb.
  assert (E : int_of_char c mod 256 = Z.of_N (N_of_ascii c)).
  { unfold int_of_char. cbv zeta.
    destruct (Z.ltb_spec (Z.of_N (N_of_ascii c)) 128).
    - apply Z.mod_small. lia.
    - replace (Z.of_N (N_of_ascii c) - 256)
        with (Z.of_N (N_of_ascii c) + (-1) * 256) by lia.
      rewrite Z.mod_add by lia. apply Z.mod_small. lia. }
  rewrite E, N2Z.id. apply ascii_N_embedding.
Qed.

Lemma append_empty (s : string) : s ++ "" = s.
Proof. induction s as [|c r IH]; simpl; congruence. Qed.

Lemma read_identifier_S (n : nat) (st : state) :
  read_identifier (S n) st
  = if isalnum (LastChar (advance st))
    then read_identifier n
           (set_IdentifierStr
              (IdentifierStr (advance st)
               ++ String (char_of_int (LastChar (advance st))) "")
              (advance st))
    else Some (advance st).
Proof. reflexivity. Qed.

Lemma read_number_S (n : nat) (s : string) (st : state) :
  read_number (S n) s st
  = if isdigit (LastChar (advance st)) || (LastChar (advance st) =? 46)
    then read_number n (s ++ String (char_of_int (LastChar st)) "")
           (advance st)
    else Some (s ++ String (char_of_int (LastChar st)) "", advance st).
Proof. reflexivity. Qed.

Section Words.

Variables (d : ascii) (rest : string).

Lemma read_identifier_word (w : string) :
  forall pre st k,
    Buf st = pre ++ w ++ String d rest ->
    Index st = String.length pre ->
    all_alnum w = true ->
    isalnum (int_of_char d) = false ->
    read_identifier (S (String.length w) + k) st
    = Some (set_IdentifierStr (IdentifierStr st ++ w)
              (set_LastChar (int_of_char d)
                 (set_Index (String.length pre + String.length w + 1) st))).
Proof.
  induction w as [|c w IH]; intros pre st k HB HI Hw Hd.
  - change (S (String.length "") + k)%nat with (S k).
    rewrite read_identifier_S.
    rewrite (advance_in_buffer st d)
      by (rewrite HB, HI; apply get_app_length).
    cbn [LastChar set_LastChar]. rewrite Hd, append_empty, HI.
    f_equal. destruct st. state_eq.
  - change (S (String.length (String c w)) + k)%nat
      with (S (S (String.length w) + k)).
    rewrite read_identifier_S.
    rewrite (advance_in_buffer st c)
      by (rewrite HB, HI; apply get_app_length).
    cbn [LastChar set_LastChar IdentifierStr set_Index].
    simpl in Hw. apply andb_true_iff in Hw as [Hc Hw]. rewrite Hc.
    rewrite char_of_int_of_char.
    rewrite (IH (pre ++ String c "") _ k); [| | |exact Hw|exact Hd].
    + cbn [IdentifierStr set_IdentifierStr].
      rewrite length_app_char, app_char_assoc. f_equal. state_eq.
    + cbn [Buf set_IdentifierStr set_LastChar set_Index].
      rewrite HB. symmetry. apply app_char_assoc.
    + cbn [Index set_IdentifierStr set_LastChar set_Index].
      rewrite HI, length_app_char. reflexivity.
Qed.

Lemma read_number_run (w : string) :
  forall a pre st s k,
    LastChar st = int_of_char a ->
    Buf st = pre ++ w ++ String d rest ->
    Index st = String.length pre ->
    all_number_chars w = true ->
    isdigit (int_of_char d) || (int_of_char d =? 46) = false ->
    read_number (S (String.length w) + k) s st
    = Some (s ++ String a w,
            set_LastChar (int_of_char d)
              (set_Index (String.length pre + String.length w + 1) st)).
Proof.
  induction w as [|c w IH]; intros a pre st s k HL HB HI Hw Hd.
  - change (S (String.length "") + k)%nat with (S k).
    rewrite read_number_S.
    rewrite (advance_in_buffer st d)
      by (rewrite HB, HI; apply get_app_length).
    cbn [LastChar set_LastChar]. rewrite Hd, HL, char_of_int_of_char, HI.
    do 2 f_equal. state_eq.
  - change (S (String.length (String c w)) + k)%nat
      with (S (S (String.length w) + k)).
    rewrite read_number_S.
    rewrite (advance_in_buffer st c)
      by (rewrite HB, HI; apply get_app_length).
    cbn [LastChar set_LastChar].
    simpl in Hw. apply andb_true_iff in Hw as [Hc Hw]. rewrite Hc.
    rewrite HL, char_of_int_of_char.
    rewrite (IH c (pre ++ String c "") _ _ k);
      [| | | |exact Hw|exact Hd].
    + rewrite length_app_char, app_char_assoc. do 2 f_equal. state_eq.
    + reflexivity.
    + cbn [Buf set_LastChar set_Index].
      rewrite HB. symmetry. apply app_char_assoc.
    + cbn [Index set_LastChar set_Index].
      rewrite HI, length_app_char. reflexivity.
Qed.

End Words.

(** X4: Started on a letter, [gettok] takes the longest run of letters and
    digits that follows: with the letter [a] in [LastChar] and the buffer
    holding [w] and then [d], where [w] is alphanumeric and [d] is not,
    it leaves [a w] in [IdentifierStr] and [d] in [LastChar], and returns
    [tok_def] for [def], [tok_extern] for [extern] and [tok_identifier]
    for every other word. *)
Theorem gettok_reads_a_word (src : source_file) (a d : ascii)
    (pre w rest : string) (st : state) (k : nat) :
  LastChar st = int_of_char a ->
  isalpha (int_of_char a) = true ->
  Buf st = pre ++ w ++ String d rest ->
  Index st = String.length pre ->
  all_alnum w = true ->
  isalnum (int_of_char d) = false ->
  gettok src (S (S (String.length w) + k)) st
  = Some (word_token (String a w),
          set_IdentifierStr (String a w)
            (set_LastChar (int_of_char d)
               (set_Index (String.length pre + String.length w + 1) st))).
Proof.
  intros HL Ha HB HI Hw Hd. cbn [gettok].
  assert (Hnl : newline_is_semicolon src && (LastChar st =? 10) = false).
  { rewrite HL. replace (int_of_char a =? 10) with false;
      [apply andb_false_r|]. symmetry. apply Z.eqb_neq.
    unfold isalpha in Ha. lia. }
  rewrite Hnl.
  rewrite skip_space_id
    by (rewrite HL; unfold isspace; unfold isalpha in Ha; lia).
  rewrite HL, Ha, char_of_int_of_char.
  rewrite (read_identifier_word d rest w pre _ k); try assumption.
  cbn [IdentifierStr set_IdentifierStr].
  change (String a "" ++ w) with (String a w).
  unfold word_token.
  destruct (String.eqb (String a w) "def");
    [f_equal; f_equal; state_eq|].
  destruct (String.eqb (String a w) "extern"); f_equal; f_equal; state_eq.
Qed.

Lemma gettok_reads_a_word_witness :
  gettok jit_cpp 5 (set_LastChar 100 (set_Index 1 (set_Buf "def(" (initial ""))))
  = Some (tok_def,
          set_IdentifierStr "def"
            (set_LastChar 40
               (set_Index 4
                  (set_LastChar 100
                     (set_Index 1 (set_Buf "def(" (initial ""))))))).
Proof.
  apply (gettok_reads_a_word jit_cpp "d" "(" "d" "ef" "" _ 1); reflexivity.
Defined.

(** X5: Started on a digit or a dot, [gettok] takes the longest run of digits
    and dots that follows, whatever the number of dots: with [a] in
    [LastChar] and the buffer holding [w] and then [d], where [w] is made of
    digits and dots and [d] is neither, the loop collects the text [a w] for
    [strtod], and [gettok] returns [tok_number], leaves [d] in [LastChar],
    and changes nothing else but [NumVal] (whose value is not stated
    here). *)
Theorem gettok_reads_a_number (src : source_file) (a d : ascii)
    (pre w rest : string) (st : state) (k : nat) :
  LastChar st = int_of_char a ->
  isdigit (int_of_char a) || (int_of_char a =? 46) = true ->
  Buf st = pre ++ w ++ String d rest ->
  Index st = String.length pre ->
  all_number_chars w = true ->
  isdigit (int_of_char d) || (int_of_char d =? 46) = false ->
  read_number (S (String.length w) + k) "" st
  = Some (String a w,
          set_LastChar (int_of_char d)
            (set_Index (String.length pre + String.length w + 1) st))
  /\ exists v,
       gettok src (S (S (String.length w) + k)) st
       = Some (tok_number,
               set_NumVal v
                 (set_LastChar (int_of_char d)
                    (set_Index (String.length pre + String.length w + 1) st))).
Proof.
  intros HL Ha HB HI Hw Hd.
  pose proof (read_number_run d rest w a pre st "" k HL HB HI Hw Hd) as Hrun.
  split; [exact Hrun|].
  exists (strtod (String a w)). cbn [gettok].
  assert (Hrange : isspace (int_of_char a) = false
                   /\ isalpha (int_of_char a) = false
                   /\ (int_of_char a =? 10) = false).
  { unfold isspace, isalpha. unfold isdigit in Ha. lia. }
  destruct Hrange as (Hs & Hal & Hn).
  rewrite HL, Hn, andb_false_r.
  rewrite skip_space_id by (rewrite HL; exact Hs).
  rewrite HL, Hal, Ha, Hrun. reflexivity.
Qed.

Lemma gettok_reads_a_number_witness :
  read_number 6 ""
    (set_LastChar 49 (set_Index 1 (set_Buf "1.2.3+" (initial ""))))
  = Some ("1.2.3",
          set_LastChar 43
            (set_Index 6
               (set_LastChar 49
                  (set_Index 1 (set_Buf "1.2.3+" (initial "")))))).
Proof.
  destruct (gettok_reads_a_number main_cpp "1" "+" "1" ".2.3" ""
              (set_LastChar 49 (set_Index 1 (set_Buf "1.2.3+" (initial ""))))
              1) as [H _]; [reflexivity .. | exact H].
Defined.

(** ** The character source *)

Lemma get_lt_Some (s : string) :
  forall i, (i < String.length s)%nat -> exists c, String.get i s = Some c.
Proof.
  induction s as [|a r IH]; simpl; intros i Hi; [lia|].
  destruct i as [|i]; [eauto|]. apply IH. lia.
Qed.

(** X1: [getBufChar] never reads past the end of [Buf]: the character it
    returns is the one the buffer holds at the index read, which is the
    index the call finds, or zero after a refill, and is below the length of
    the buffer; the terminating NUL is never returned.  The read comes
    before the increment of [Index], so this does not depend on what the
    increment gives. *)
Theorem getBufChar_in_bounds (st : state) :
  let i := if (String.length (Buf st) <=? Index st)%nat then 0%nat
           else Index st in
  let st' := snd (getBufChar st) in
  (i < String.length (Buf st'))%nat
  /\ String.get i (Buf st') = Some (fst (getBufChar st)).
Proof.
  unfold getBufChar.
  destruct (String.length (Buf st) <=? Index st)%nat eqn:Hex.
  - cbn [fst snd Index Buf set_Index set_Buf].
    destruct (get_lt_Some (Buf (getline st) ++ String "010"%char "") 0)
      as [c Hc]; [rewrite length_app_char; lia|].
    rewrite Hc, length_app_char. split; [lia | reflexivity].
  - apply Nat.leb_gt in Hex.
    destruct (get_lt_Some (Buf st) (Index st) Hex) as [c Hc].
    rewrite Hc. cbn [fst snd Index Buf set_Index].
    split; [lia | exact Hc].
Qed.

Lemma getBufChar_in_buffer (st : state) (ch : ascii) :
  String.get (Index st) (Buf st) = Some ch ->
  getBufChar st = (ch, set_Index (S (Index st)) st).
Proof.
  intros H. unfold getBufChar.
  pose proof (get_Some_lt _ _ _ H) as Hlt.
  apply Nat.leb_gt in Hlt. rewrite Hlt, H. reflexivity.
Qed.

Lemma getBufChars_rest (s : string) :
  forall pre st,
    Buf st = pre ++ s ->
    Index st = String.length pre ->
    getBufChars (String.length s) st
    = (s, set_Index (String.length pre + String.length s) st).
Proof.
  induction s as [|c s IH]; intros pre st HB HI.
  - cbn [String.length getBufChars]. f_equal.
    rewrite Nat.add_0_r, <- HI. destruct st; reflexivity.
  - cbn [String.length getBufChars].
    rewrite (getBufChar_in_buffer st c)
      by (rewrite HB, HI; apply get_app_length).
    rewrite (IH (pre ++ String c "")).
    + rewrite length_app_char. f_equal. state_eq.
    + cbn [Buf set_Index]. rewrite HB. symmetry. apply app_char_assoc.
    + cbn [Index set_Index]. rewrite HI, length_app_char. reflexivity.
Qed.

Lemma split_line_no_newline (l rest : string) :
  no_newline l = true ->
  split_line (l ++ String "010"%char rest) = (l, Some rest).
Proof.
  induction l as [|c r IH]; simpl; [reflexivity|].
  intros H. apply andb_true_iff in H as [Hc Hr].
  destruct (Ascii.eqb c "010"%char); [discriminate|].
  rewrite (IH Hr). reflexivity.
Qed.

Lemma split_line_end (l : string) :
  no_newline l = true -> split_line l = (l, None).
Proof.
  induction l as [|c r IH]; simpl; [reflexivity|].
  intros H. apply andb_true_iff in H as [Hc Hr].
  destruct (Ascii.eqb c "010"%char); [discriminate|].
  rewrite (IH Hr). reflexivity.
Qed.

(** What a refill leaves in [Buf] decides the next [String.length Buf]
    characters. *)
Lemma getBufChars_refill (st st1 : state) (b : string) :
  (String.length (Buf st) <= Index st)%nat ->
  getline st = st1 ->
  Buf st1 ++ nl = b ->
  getBufChars (String.length b) st
  = (b, set_Index (String.length b) (set_Buf b st1)).
Proof.
  intros Hex Hg Hb.
  assert (Hfirst : getBufChar st = getBufChar (set_Index 0 (set_Buf b st1))).
  { unfold getBufChar at 1. apply Nat.leb_le in Hex. rewrite Hex, Hg.
    unfold nl in Hb. rewrite Hb.
    unfold getBufChar. cbn [Buf Index set_Index set_Buf].
    replace (String.length b <=? 0)%nat with false; [reflexivity|].
    symmetry. apply Nat.leb_gt. rewrite <- Hb, length_app_char. lia. }
  assert (Hlen : String.length b = S (String.length (Buf st1)))
    by (rewrite <- Hb; apply length_app_char).
  rewrite Hlen. cbn [getBufChars]. rewrite Hfirst.
  change (let '(c, s1) := getBufChar (set_Index 0 (set_Buf b st1)) in
          let '(s, s2) := getBufChars (String.length (Buf st1)) s1 in
          (String c s, s2))
    with (getBufChars (S (String.length (Buf st1)))
            (set_Index 0 (set_Buf b st1))).
  rewrite <- Hlen.
  rewrite (getBufChars_rest b "" (set_Index 0 (set_Buf b st1)));
    [|reflexivity|reflexivity].
  f_equal.
Qed.

(** X2: [getBufChar] hands out the input as it is, line by line: with the
    buffer used up and the line [l] and its newline next on standard input,
    the next characters are those of [l] and the newline, after which the
    buffer is used up again and standard input stands after the line.  A last
    line that has no newline is handed out with one. *)
Theorem getBufChar_reads_the_line (l rest : string) (st : state) :
  cin_good st = true ->
  (String.length (Buf st) <= Index st)%nat ->
  no_newline l = true ->
  (cin st = l ++ nl ++ rest ->
   getBufChars (S (String.length l)) st
   = (l ++ nl,
      set_Index (S (String.length l))
        (set_Buf (l ++ nl) (set_cin rest true st))))
  /\ (cin st = l ->
      getBufChars (S (String.length l)) st
      = (l ++ nl,
         set_Index (S (String.length l))
           (set_Buf (l ++ nl) (set_cin "" false st)))).
Proof.
  intros Hg Hex Hl.
  assert (Hlen : String.length (l ++ nl) = S (String.length l))
    by apply length_app_char.
  split; intros Hcin; rewrite <- Hlen.
  - rewrite (getBufChars_refill st (set_Buf l (set_cin rest true st))
               (l ++ nl) Hex); [reflexivity| |reflexivity].
    unfold getline. rewrite Hg, Hcin.
    unfold nl. cbn [append]. rewrite (split_line_no_newline _ _ Hl).
    reflexivity.
  - rewrite (getBufChars_refill st (set_Buf l (set_cin "" false st))
               (l ++ nl) Hex); [reflexivity| |reflexivity].
    unfold getline. rewrite Hg, Hcin, (split_line_end _ Hl). reflexivity.
Qed.

Lemma getBufChar_reads_the_line_witness :
  getBufChars 4 (initial ("a+b" ++ nl ++ "c"))
  = ("a+b" ++ nl,
     set_Index 4 (set_Buf ("a+b" ++ nl)
                    (set_cin "c" true (initial ("a+b" ++ nl ++ "c"))))).
Proof.
  apply (proj1 (getBufChar_reads_the_line "a+b" "c"
                  (initial ("a+b" ++ nl ++ "c"))
                  eq_refl (Nat.le_refl 0) eq_refl)).
  reflexivity.
Defined.

(** X3: Once standard input has failed, [getBufChar] reads nothing new: each
    refill appends a newline to what [Buf] held and hands the whole buffer
    out again, so the last line is read over and over, followed by one more
    newline each time. *)
Theorem getBufChar_replays_the_buffer (st : state) :
  cin_good st = false ->
  (String.length (Buf st) <= Index st)%nat ->
  getBufChars (S (String.length (Buf st))) st
  = (Buf st ++ nl,
     set_Index (S (String.length (Buf st))) (set_Buf (Buf st ++ nl) st)).
Proof.
  intros Hg Hex.
  assert (Hlen : String.length (Buf st ++ nl) = S (String.length (Buf st)))
    by apply length_app_char.
  rewrite <- Hlen.
  rewrite (getBufChars_refill st st (Buf st ++ nl) Hex);
    [reflexivity| |reflexivity].
  unfold getline. rewrite Hg. reflexivity.
Qed.

Lemma getBufChar_replays_the_buffer_witness :
  fst (getBufChars 3
         (set_Index 2 (set_Buf ("x" ++ nl) (set_cin "" false (initial "")))))
  = "x" ++ nl ++ nl.
Proof.
  change 3%nat
    with (S (String.length
               (Buf (set_Index 2
                       (set_Buf ("x" ++ nl)
                          (set_cin "" false (initial ""))))))).
  rewrite (getBufChar_replays_the_buffer
             (set_Index 2
                (set_Buf ("x" ++ nl) (set_cin "" false (initial ""))))
             eq_refl (Nat.le_refl 2)).
  reflexivity.
Defined.

(** ** White space before a token *)

Lemma advance_set_LastChar (z : Z) (st : state) :
  advance (set_LastChar z st) = advance st.
Proof.
  unfold advance, getBufChar, getline.
  cbn [Buf Index cin cin_good set_LastChar].
  destruct (String.length (Buf st) <=? Index st)%nat; [|reflexivity].
  destruct (cin_good st); [|reflexivity].
  destruct (split_line (cin st)) as [l [r|]]; reflexivity.
Qed.

Lemma gettok_S (src : source_file) (n : nat) (st : state) :
  gettok src (S n) st
  = if newline_is_semicolon src && (LastChar st =? 10)
    then Some (59, set_LastChar 32 st)
    else
      match skip_space n st with
      | None => None
      | Some s1 =>
          if isalpha (LastChar s1) then
            match read_identifier n
                    (set_IdentifierStr
                       (String (char_of_int (LastChar s1)) "") s1) with
            | None => None
            | Some s2 =>
                if String.eqb (IdentifierStr s2) "def"
                then Some (tok_def, s2)
                else if String.eqb (IdentifierStr s2) "extern"
                then Some (tok_extern, s2)
                else Some (tok_identifier, s2)
            end
          else if isdigit (LastChar s1) || (LastChar s1 =? 46) then
            match read_number n "" s1 with
            | None => None
            | Some (NumStr, s2) =>
                Some (tok_number, set_NumVal (strtod NumStr) s2)
            end
          else if LastChar s1 =? 35 then
            match skip_comment n s1 with
            | None => None
            | Some s2 =>
                if negb (LastChar s2 =? EOF) then gettok src n s2
                else Some (gettok_char s2)
            end
          else Some (gettok_char s1)
      end.
Proof. reflexivity. Qed.

(** What [gettok] does once the white space is skipped does not lose by
    more fuel. *)
Lemma gettok_after_space_mono (src : source_file) (n : nat) (st1 st2 : state) :
  newline_is_semicolon src && (LastChar st1 =? 10) = false ->
  newline_is_semicolon src && (LastChar st2 =? 10) = false ->
  skip_space n st1 = skip_space (S n) st2 ->
  le_res (gettok src (S n) st1) (gettok src (S (S n)) st2).
Proof.
  intros H1 H2 Hskip.
  rewrite (gettok_S src n st1), (gettok_S src (S n) st2).
  rewrite H1, H2, <- Hskip.
  apply le_res_bind; [apply le_res_refl|]. intros s1.
  destruct (isalpha (LastChar s1)).
  { apply le_res_bind; [apply read_identifier_mono; lia|].
    intros s2. apply le_res_refl. }
  destruct (isdigit (LastChar s1) || (LastChar s1 =? 46)).
  { apply le_res_bind; [apply read_number_mono; lia|].
    intros p. apply le_res_refl. }
  destruct (LastChar s1 =? 35); [|apply le_res_refl].
  apply le_res_bind; [apply skip_comment_mono; lia|].
  intros s2. destruct (negb (LastChar s2 =? EOF)); [|apply le_res_refl].
  apply gettok_mono. lia.
Qed.

(** X6: White space before a token is skipped: started on a white-space
    character, [gettok] returns what it returns started on the character
    after it.  In [src/main.cpp] this holds when neither of the two is a
    newline; a newline that follows other white space is skipped like a
    blank and is not reported as [;]. *)
Theorem gettok_skips_white_space (src : source_file) (n : nat) (st : state) :
  isspace (LastChar st) = true ->
  (newline_is_semicolon src = true -> LastChar st <> 10) ->
  ((newline_is_semicolon src = true -> LastChar (advance st) <> 10) ->
   forall r, gettok src n (advance st) = Some r ->
             gettok src (S n) st = Some r)
  /\ (LastChar (advance st) = 10 ->
      forall r, gettok src n (set_LastChar 32 (advance st)) = Some r ->
                gettok src (S n) st = Some r).
Proof.
  intros Hs Hnl.
  assert (E0 : newline_is_semicolon src && (LastChar st =? 10) = false).
  { destruct (newline_is_semicolon src); [|reflexivity].
    apply Z.eqb_neq in Hnl; [|reflexivity]. rewrite Hnl. reflexivity. }
  split.
  - intros Hnl1 r. destruct n as [|n]; [discriminate|].
    apply gettok_after_space_mono.
    + destruct (newline_is_semicolon src); [|reflexivity].
      apply Z.eqb_neq in Hnl1; [|reflexivity]. rewrite Hnl1. reflexivity.
    + exact E0.
    + cbn [skip_space]. rewrite Hs. reflexivity.
  - intros H10 r. destruct n as [|n]; [discriminate|].
    apply gettok_after_space_mono.
    + apply andb_false_r.
    + exact E0.
    + cbn [skip_space]. rewrite Hs.
      destruct n as [|n]; cbn [skip_space]; cbn [LastChar set_LastChar];
        rewrite H10; change (isspace 32) with true;
        change (isspace 10) with true; cbv iota; [reflexivity|].
      rewrite advance_set_LastChar. reflexivity.
Qed.

Lemma gettok_skips_white_space_witness :
  gettok main_cpp 6
    (set_LastChar 32 (set_Index 1 (set_Buf (" " ++ nl ++ "x;") (initial ""))))
  = gettok main_cpp 5
      (set_LastChar 32
         (advance
            (set_LastChar 32
               (set_Index 1 (set_Buf (" " ++ nl ++ "x;") (initial "")))))).
Proof.
  destruct (gettok main_cpp 5
              (set_LastChar 32
                 (advance
                    (set_LastChar 32
                       (set_Index 1
                          (set_Buf (" " ++ nl ++ "x;") (initial "")))))))
    as [r|] eqn:E; [|vm_compute in E; discriminate E].
  destruct (gettok_skips_white_space main_cpp 5
              (set_LastChar 32
                 (set_Index 1 (set_Buf (" " ++ nl ++ "x;") (initial "")))))
    as (_ & H); [reflexivity | discriminate |].
  apply H; [reflexivity | exact E].
Defined.

(** ** When the driver returns *)

(** X16: [MainLoop] returns only on the end-of-input token: the state in which
    it returns has [tok_eof] as its current token, and a state that has it
    is returned as it is. *)
Theorem MainLoop_returns_on_tok_eof_only (n : nat) (st st' : state) :
  (MainLoop n st = Some st' -> CurTok st' = tok_eof)
  /\ (CurTok st = tok_eof -> MainLoop (S n) st = Some st).
Proof.
  split; [apply MainLoop_returns_at_eof | apply MainLoop_at_eof].
Qed.

Lemma MainLoop_returns_on_tok_eof_only_witness :
  MainLoop 1 (set_CurTok tok_eof (initial ""))
  = Some (set_CurTok tok_eof (initial "")).
Proof.
  apply (MainLoop_returns_on_tok_eof_only 0 (set_CurTok tok_eof (initial ""))
           (initial "")).
  reflexivity.
Defined.
